(** * gin-metrics: a shallow embedding of the instrumentation core

    The development follows the three source files of the package:
    the metric definitions and the collector factory ([Metric], [NewMetric],
    the built-in catalog, [computeApproximateRequestSize]), the facade
    ([New], [HandlerFunc], [registerMetrics], the push forwarder) and the
    options.  Go panics are explicit results, pointers to [Metric] structs
    are indices in a store, and what the Go runtime or a client library
    decides (the clock, the network, map iteration order) is an input. *)

From stdpp Require Import base numbers list strings gmap.
From Stdlib Require Import ZArith Lia Permutation Ascii.

Open Scope Z_scope.

(** ** Go values *)

Module GoInt.

(** Go's [int] on a 64-bit platform: two's complement, silent wrap-around. *)
Definition wrap (z : Z) : Z := (z + 2 ^ 63) `mod` 2 ^ 64 - 2 ^ 63.

Definition add (a b : Z) : Z := wrap (a + b).

(** [len(s)] of a Go string is its number of bytes. *)
Definition len (s : string) : Z := Z.of_nat (String.length s).

Definition inRange (z : Z) : Prop := - 2 ^ 63 <= z < 2 ^ 63.

End GoInt.

(** ** Panics and state

    A Go function that mutates shared state and may panic: it either returns
    a value or panics, and in both cases leaves a state behind (the effects
    that preceded a panic stay in place). *)
Inductive Outcome (S A : Type) : Type :=
| Ret (a : A) (s : S)
| Panicked (msg : string) (s : S).
Arguments Ret {S A} a s.
Arguments Panicked {S A} msg s.

Definition stateOf {S A} (o : Outcome S A) : S :=
  match o with Ret _ s => s | Panicked _ s => s end.

Definition returned {S A} (o : Outcome S A) : bool :=
  match o with Ret _ _ => true | Panicked _ _ => false end.

Definition ret {S A} (a : A) : S -> Outcome S A := fun s => Ret a s.

Definition panic {S A} (msg : string) : S -> Outcome S A := fun s => Panicked msg s.

Definition bind {S A B} (m : S -> Outcome S A) (k : A -> S -> Outcome S B)
  : S -> Outcome S B :=
  fun s => match m s with
           | Ret a s' => k a s'
           | Panicked msg s' => Panicked msg s'
           end.

Notation "x <~ m ;~ k" := (bind m (fun x => k))
  (at level 20, m at level 99, k at level 200, right associativity).
Notation "m ;~ k" := (bind m (fun _ => k))
  (at level 100, k at level 200, right associativity).

(** ** net/http requests as the package reads them *)

Record URL := { Path : string }.

Record Request := {
  Method : string;
  ReqURL : option URL;                      (* r.URL, a pointer that may be nil *)
  Proto : string;
  Header : list (string * list string);     (* map[string][]string, in iteration order *)
  Host : string;
  ContentLength : Z;                        (* int64; -1 = unknown *)
}.

Definition urlPath (r : Request) : string :=
  match ReqURL r with Some u => Path u | None => "" end.

(** ** computeApproximateRequestSize *)

Definition addValues (s : Z) (values : list string) : Z :=
  fold_left (fun s value => GoInt.add s (GoInt.len value)) values s.

Definition addHeader (s : Z) (h : string * list string) : Z :=
  addValues (GoInt.add s (GoInt.len h.1)) h.2.

Definition computeApproximateRequestSize (r : Request) : Z :=
  let s := 0 in
  let s := match ReqURL r with
           | Some u => GoInt.len (Path u)
           | None => s
           end in
  let s := GoInt.add s (GoInt.len (Method r)) in
  let s := GoInt.add s (GoInt.len (Proto r)) in
  let s := fold_left addHeader (Header r) s in
  let s := GoInt.add s (GoInt.len (Host r)) in
  if ContentLength r =? -1 then s
  else GoInt.add s (GoInt.wrap (ContentLength r)).

(** The sum the specification documents, over the integers. *)
Definition valuesLength (values : list string) : Z :=
  foldr (fun value acc => GoInt.len value + acc) 0 values.

Definition headerLength (hs : list (string * list string)) : Z :=
  foldr (fun h acc => GoInt.len h.1 + valuesLength h.2 + acc) 0 hs.

Definition documentedSize (r : Request) : Z :=
  GoInt.len (urlPath r) + GoInt.len (Method r) + GoInt.len (Proto r)
  + headerLength (Header r) + GoInt.len (Host r)
  + (if 0 <=? ContentLength r then ContentLength r else 0).

(** The same sum with the guard the code has. *)
Definition rawSize (r : Request) : Z :=
  GoInt.len (urlPath r) + GoInt.len (Method r) + GoInt.len (Proto r)
  + headerLength (Header r) + GoInt.len (Host r)
  + (if ContentLength r =? -1 then 0 else ContentLength r).

Definition exampleGet : Request := {|
  Method := "GET";
  ReqURL := Some {| Path := "/a" |};
  Proto := "HTTP/1.1";
  Header := [];
  Host := "h";
  ContentLength := -1;
|}.

(** ** The Prometheus client library, as far as the package uses it *)

(** The eight concrete collectors [NewMetric] can build. *)
Inductive Kind :=
| CounterVec | Counter | GaugeVec | Gauge
| HistogramVec | Histogram | SummaryVec | Summary.

Global Instance Kind_eq_dec : EqDecision Kind.
Proof. solve_decision. Defined.

(** [prometheus.CounterOpts] and its siblings, with the fields the factory sets. *)
Record Opts := {
  Subsystem : string;
  OptName : string;
  Help : string;
}.

(** A collector object: [cid] is its identity (two objects built by two calls
    of a constructor differ in it), the rest is what it was built from. *)
Record Collector := {
  cid : nat;
  kind : Kind;
  opts : Opts;
  labelNames : list string;
}.

(** What a request adds to a collector.  An observed value is a [float64]:
    it is kept as the integer it was converted from. *)
Inductive Update :=
| Inc (labelValues : list string)
| Observe (labelValues : list string) (v : Z).

(** The mutable world an update function works on: the monotonic clock, in
    nanoseconds, and the updates every collector has received. *)
Record World := {
  clock : Z;
  values : gmap nat (list Update);
}.

Definition received (w : World) (c : Collector) : list Update :=
  default [] (values w !! cid c).

Definition record (c : Collector) (u : Update) (w : World) : World :=
  {| clock := clock w;
     values := <[cid c := received w c ++ [u]]> (values w) |}.

(** The value of a counter: the number of increments it received. *)
Definition isInc (u : Update) : bool :=
  match u with Inc _ => true | Observe _ _ => false end.

Definition counterValue (w : World) (c : Collector) : Z :=
  Z.of_nat (length (List.filter isInc (received w c))).

(** Type assertions [collector.(T)] on an interface value that may be nil.
    [prometheus.Counter] and [prometheus.Summary] are interfaces: a gauge has
    the methods of a counter and a histogram those of a summary, so these
    assertions succeed on them too. *)
Definition assertCounter (c : option Collector) : option Collector :=
  match c with
  | Some c => match kind c with Counter | Gauge => Some c | _ => None end
  | None => None
  end.

Definition assertSummary (c : option Collector) : option Collector :=
  match c with
  | Some c => match kind c with Summary | Histogram => Some c | _ => None end
  | None => None
  end.

(** [time.Since]: a saturating difference of two readings of the monotonic
    clock, as a [time.Duration]. *)
Definition maxDuration : Z := 2 ^ 63 - 1.
Definition minDuration : Z := - 2 ^ 63.

Definition Since (w : World) (startTime : Z) : Z :=
  let d := clock w - startTime in
  if maxDuration <? d then maxDuration
  else if d <? minDuration then minDuration
  else d.

(** ** gin contexts *)

Record ResponseWriter := {
  Status : Z;
  Size : Z;
}.

(** A handler that follows the metrics middleware in the chain.  It answers
    the request and takes time; it does not call [Next] or [Abort] itself. *)
Definition Handler := Request -> ResponseWriter -> World -> ResponseWriter * World.

(** [index] is the position in the handler chain, counted from the metrics
    middleware (position 0); [handlers] are the positions after it. *)
Record Context := {
  Req : Request;
  Writer : ResponseWriter;
  index : Z;
  handlers : list Handler;
}.

Definition setIndex (i : Z) (c : Context) : Context :=
  {| Req := Req c; Writer := Writer c; index := i; handlers := handlers c |}.

Definition setWriter (wr : ResponseWriter) (c : Context) : Context :=
  {| Req := Req c; Writer := wr; index := index c; handlers := handlers c |}.

(** The loop of [Context.Next]: run the handlers that are left, advancing
    [index] after each. *)
Fixpoint runHandlers (hs : list Handler) (c : Context) (w : World) : Context * World :=
  match hs with
  | [] => (c, w)
  | h :: hs =>
      let '(wr, w) := h (Req c) (Writer c) w in
      runHandlers hs (setIndex (index c + 1) (setWriter wr c)) w
  end.

Definition handlersFrom (c : Context) : list Handler :=
  drop (Z.to_nat (index c - 1)) (handlers c).

(** ** Metric definitions *)

Definition ExecFnT :=
  option Collector -> Z -> Context -> World -> Outcome World unit.

Record Metric := {
  collector : option Collector;       (* nil until constructed *)
  Name : string;
  Description : string;
  Type_ : string;                     (* the field Type *)
  Args : list string;
  ExecFn : ExecFnT;
  once : bool;                        (* sync.Once: Do has run *)
}.

Definition mkOpts (m : Metric) (subsystem : string) : Opts :=
  {| Subsystem := subsystem; OptName := Name m; Help := Description m |}.

(** NewMetric: [fresh] is the identity the allocated collector gets. *)
Definition NewMetric (m : Metric) (subsystem : string) (fresh : nat) : option Collector :=
  let vec k := Some {| cid := fresh; kind := k; opts := mkOpts m subsystem;
                       labelNames := Args m |} in
  let scalar k := Some {| cid := fresh; kind := k; opts := mkOpts m subsystem;
                          labelNames := [] |} in
  if String.eqb (Type_ m) "counter_vec" then vec CounterVec
  else if String.eqb (Type_ m) "counter" then scalar Counter
  else if String.eqb (Type_ m) "gauge_vec" then vec GaugeVec
  else if String.eqb (Type_ m) "gauge" then scalar Gauge
  else if String.eqb (Type_ m) "histogram_vec" then vec HistogramVec
  else if String.eqb (Type_ m) "histogram" then scalar Histogram
  else if String.eqb (Type_ m) "summary_vec" then vec SummaryVec
  else if String.eqb (Type_ m) "summary" then scalar Summary
  else None.

Definition recognized (ty : string) : bool :=
  bool_decide (ty ∈ ["counter_vec"; "counter"; "gauge_vec"; "gauge";
                     "histogram_vec"; "histogram"; "summary_vec"; "summary"]).


(** *** The built-in catalog (the scalar entries) *)

Definition conversionPanic : string := "interface conversion".

Definition ResponseSize : Metric := {|
  collector := None;
  Name := "response_size_bytes";
  Description := "The HTTP response sizes in bytes.";
  Type_ := "summary";
  Args := [];
  ExecFn := fun collector startTime ctx w =>
    match assertSummary collector with
    | Some c => Ret tt (record c (Observe [] (Size (Writer ctx))) w)
    | None => Panicked conversionPanic w
    end;
  once := false;
|}.

Definition RequestSize : Metric := {|
  collector := None;
  Name := "request_size_bytes";
  Description := "The HTTP request sizes in bytes.";
  Type_ := "summary";
  Args := [];
  ExecFn := fun collector startTime ctx w =>
    match assertSummary collector with
    | Some c =>
        Ret tt (record c (Observe [] (computeApproximateRequestSize (Req ctx))) w)
    | None => Panicked conversionPanic w
    end;
  once := false;
|}.

Definition SlowRequestTotal (slowTime : Z) : Metric := {|
  collector := None;
  Name := "slow_request_total";
  Description := "The slow HTTP request total.";
  Type_ := "counter";
  Args := [];
  ExecFn := fun collector startTime ctx w =>
    if slowTime <? Since w startTime then
      match assertCounter collector with
      | Some c => Ret tt (record c (Inc []) w)
      | None => Panicked conversionPanic w
      end
    else Ret tt w;
  once := false;
|}.

(** ** encoding/base64, standard encoding with padding *)

Module Base64.

Definition encodeStd : string :=
  "ABCDEFGHIJKLMNOPQRSTUVWXYZabcdefghijklmnopqrstuvwxyz0123456789+/".

Definition padChar : ascii := "="%char.

(** The character of a 6-bit value. *)
Definition digit (n : Z) : ascii :=
  match String.get (Z.to_nat n) encodeStd with
  | Some c => c
  | None => padChar
  end.

Definition bytes (s : string) : list Z :=
  (fun c => Z.of_N (N_of_ascii c)) <$> String.list_ascii_of_string s.

Fixpoint encode (src : list Z) : string :=
  match src with
  | [] => ""
  | [a] =>
      String (digit (Z.shiftr a 2))
        (String (digit (Z.shiftl (Z.land a 3) 4))
           (String padChar (String padChar "")))
  | [a; b] =>
      String (digit (Z.shiftr a 2))
        (String (digit (Z.lor (Z.shiftl (Z.land a 3) 4) (Z.shiftr b 4)))
           (String (digit (Z.shiftl (Z.land b 15) 2))
              (String padChar "")))
  | a :: b :: c :: rest =>
      String (digit (Z.shiftr a 2))
        (String (digit (Z.lor (Z.shiftl (Z.land a 3) 4) (Z.shiftr b 4)))
           (String (digit (Z.lor (Z.shiftl (Z.land b 15) 2) (Z.shiftr c 6)))
              (String (digit (Z.land c 63)) (encode rest))))
  end.

Definition EncodeToString (s : string) : string := encode (bytes s).

End Base64.

(** ** The facade *)

Definition Accounts := list (string * string).

Record Prometheus := {
  router : option nat;                (* a *gin.Engine, nil when absent *)
  exportRouter : option nat;
  accounts : option Accounts;         (* gin.Accounts, a map that may be nil *)
  metricsBasicAuth : string;
  PushInterval : Z;                   (* time.Duration, nanoseconds *)
  PushGatewayURL : string;
  metrics : list nat;                 (* pointers to Metric structs *)
  metricsPath : string;
  jobName : string;
  Logger : nat;                       (* the logging sink *)
  LoggerTag : string;
  InstanceName : string;
  MetricsURL : string;
}.

Definition Second : Z := 1000000000.
Definition DefaultPushInterval : Z := 5 * Second.
Definition DefaultJobName : string := "gin".
Definition DefaultMetricsPath : string := "metrics".

(** *** Options *)

Definition Option := Prometheus -> Prometheus.

Definition WithRouter (r : nat) : Option :=
  fun '(Build_Prometheus _ b c d e f g h i j k l m) =>
    Build_Prometheus (Some r) b c d e f g h i j k l m.

Definition WithExportRouter (r : nat) : Option :=
  fun '(Build_Prometheus a _ c d e f g h i j k l m) =>
    Build_Prometheus a (Some r) c d e f g h i j k l m.

Definition WithMetricsPath (s : string) : Option :=
  fun '(Build_Prometheus a b c d e f g _ i j k l m) =>
    Build_Prometheus a b c d e f g s i j k l m.

Definition WithMetrics (ms : list nat) : Option :=
  fun '(Build_Prometheus a b c d e f g h i j k l m) =>
    Build_Prometheus a b c d e f (g ++ ms) h i j k l m.

Definition WithPushGatewayUrl (pgw : string) : Option :=
  fun '(Build_Prometheus a b c d e _ g h i j k l m) =>
    Build_Prometheus a b c d e pgw g h i j k l m.

Definition WithExportAccounts (accts : option Accounts) : Option :=
  fun '(Build_Prometheus a b _ d e f g h i j k l m) =>
    Build_Prometheus a b accts d e f g h i j k l m.

Definition WithPushInterval (t : Z) : Option :=
  fun '(Build_Prometheus a b c d _ f g h i j k l m) =>
    Build_Prometheus a b c d t f g h i j k l m.

Definition WithPushPushGatewayURL (url : string) : Option :=
  fun '(Build_Prometheus a b c d e _ g h i j k l m) =>
    Build_Prometheus a b c d e url g h i j k l m.

Definition WithJobName (name : string) : Option :=
  fun '(Build_Prometheus a b c d e f g h _ j k l m) =>
    Build_Prometheus a b c d e f g h name j k l m.

Definition WithLogger (l : nat) : Option :=
  fun '(Build_Prometheus a b c d e f g h i _ k l' m) =>
    Build_Prometheus a b c d e f g h i l k l' m.

Definition WithLoggerTag (tag : string) : Option :=
  fun '(Build_Prometheus a b c d e f g h i j _ l m) =>
    Build_Prometheus a b c d e f g h i j tag l m.

Definition WithInstanceName (name : string) : Option :=
  fun '(Build_Prometheus a b c d e f g h i j k _ m) =>
    Build_Prometheus a b c d e f g h i j k name m.

Definition WithMetricsURL (url : string) : Option :=
  fun '(Build_Prometheus a b c d e f g h i j k l _) =>
    Build_Prometheus a b c d e f g h i j k l url.

Definition setMetricsBasicAuth (auth : string) : Prometheus -> Prometheus :=
  fun '(Build_Prometheus a b c _ e f g h i j k l m) =>
    Build_Prometheus a b c auth e f g h i j k l m.

(** *** The state the facade works on *)

Inductive RegError :=
| InvalidDescriptor (fq : string)
| DuplicateRegistration (fq : string).

Inductive LoggedError :=
| RegistrationError (e : RegError)
| TransportError (msg : string).

(** One call of [p.Logger.Error(ctx, p.LoggerTag, err)]. *)
Record LogEntry := {
  sink : nat;
  tag : string;
  err : LoggedError;
}.

Record HttpRequest := {
  hMethod : string;
  hURL : string;
  hAuthorization : option string;     (* the Authorization header, when set *)
  hBody : string;
}.

Inductive GinCall :=
| Use (engine : nat)
| GET (engine : nat) (path : string) (auth : option Accounts).

Record State := {
  world : World;
  heap : list Metric;                 (* the Metric structs, by address *)
  nextId : nat;                       (* identity of the next collector built *)
  registry : list Collector;          (* prometheus.DefaultRegisterer *)
  logged : list LogEntry;
  execd : list nat;                   (* ghost: the metrics whose Exec was entered *)
  ginCalls : list GinCall;
  sent : list HttpRequest;            (* requests handed to an http.Client *)
  pushLoops : list Prometheus;        (* the push goroutines started *)
}.

Definition setWorld (w : World) : State -> State :=
  fun '(Build_State _ b c d e f g h i) => Build_State w b c d e f g h i.
Definition setHeap (hp : list Metric) (n : nat) : State -> State :=
  fun '(Build_State a _ _ d e f g h i) => Build_State a hp n d e f g h i.
Definition setRegistry (r : list Collector) : State -> State :=
  fun '(Build_State a b c _ e f g h i) => Build_State a b c r e f g h i.
Definition setLogged (l : list LogEntry) : State -> State :=
  fun '(Build_State a b c d _ f g h i) => Build_State a b c d l f g h i.
Definition setExecd (x : list nat) : State -> State :=
  fun '(Build_State a b c d e _ g h i) => Build_State a b c d e x g h i.
Definition setGinCalls (x : list GinCall) : State -> State :=
  fun '(Build_State a b c d e f _ h i) => Build_State a b c d e f x h i.
Definition setSent (x : list HttpRequest) : State -> State :=
  fun '(Build_State a b c d e f g _ i) => Build_State a b c d e f g x i.
Definition setPushLoops (x : list Prometheus) : State -> State :=
  fun '(Build_State a b c d e f g h _) => Build_State a b c d e f g h x.

Definition M (A : Type) : Type := State -> Outcome State A.

Definition nilDereference : string := "invalid memory address or nil pointer dereference".

(** What the environment decides. *)
Record Env := {
  hostname : string;                            (* os.Hostname *)
  rangeSeed : nat;                              (* where a range over a map starts *)
  validDesc : string -> list string -> bool;    (* the registry's descriptor check *)
  urlParses : string -> bool;                   (* http.NewRequest accepts the URL *)
  routeAccepted : nat -> string -> bool;        (* gin accepts the new route *)
}.

(** What the network answers during one tick of the push loop. *)
Inductive DoResult :=
| DoError (msg : string)                        (* (nil, err) *)
| DoResponse (body : string).                   (* a response; what ReadAll yields *)

Record Net := {
  doGet : HttpRequest -> DoResult;
  doPost : HttpRequest -> option string;        (* the error, if any *)
}.

Definition setCollector (c : option Collector) (m : Metric) : Metric :=
  {| collector := c; Name := Name m; Description := Description m;
     Type_ := Type_ m; Args := Args m; ExecFn := ExecFn m; once := true |}.

(** prometheus.BuildFQName with an empty namespace. *)
Definition fqName (c : Collector) : string :=
  if String.eqb (OptName (opts c)) "" then ""
  else if String.eqb (Subsystem (opts c)) "" then OptName (opts c)
  else Subsystem (opts c) +:+ "_" +:+ OptName (opts c).

(** The entry a [for k, v := range m { ...; break }] sees. *)
Definition rangeFirst {A} (seed : nat) (m : list A) : option A :=
  m !! (seed `mod` length m)%nat.

Section Facade.

Variable env : Env.

Definition logError (p : Prometheus) (e : LoggedError) : M unit := fun s =>
  Ret tt (setLogged (logged s ++ [{| sink := Logger p; tag := LoggerTag p; err := e |}]) s).

Definition Now : M Z := fun s => Ret (clock (world s)) s.

(** **** Metric.Collector and Metric.Exec *)

(** [m.once.Do] run by one caller at a time: the construction happens on
    the first call only. *)
Definition Metric_Collector (m : nat) (jobName : string) : M (option Collector) :=
  fun s =>
    match heap s !! m with
    | None => Panicked nilDereference s
    | Some mt =>
        if once mt then Ret (collector mt) s
        else
          let c := NewMetric mt jobName (nextId s) in
          let n := match c with Some _ => S (nextId s) | None => nextId s end in
          Ret c (setHeap (<[m := setCollector c mt]> (heap s)) n s)
    end.

Definition Metric_Exec (m : nat) (startTime : Z) (ctx : Context) : M unit :=
  fun s =>
    match heap s !! m with
    | None => Panicked nilDereference s
    | Some mt =>
        let s := setExecd (execd s ++ [m]) s in
        match ExecFn mt (collector mt) startTime ctx (world s) with
        | Ret _ w => Ret tt (setWorld w s)
        | Panicked msg w => Panicked msg (setWorld w s)
        end
    end.

(** **** prometheus.Register

    The default registry refuses a collector whose descriptor is invalid
    and one whose fully-qualified name is already registered; a nil
    collector is dereferenced. *)
Definition Register (c : option Collector) : M (option RegError) := fun s =>
  match c with
  | None => Panicked nilDereference s
  | Some c =>
      if negb (validDesc env (fqName c) (labelNames c))
      then Ret (Some (InvalidDescriptor (fqName c))) s
      else if existsb (fun c' => String.eqb (fqName c') (fqName c)) (registry s)
      then Ret (Some (DuplicateRegistration (fqName c))) s
      else Ret None (setRegistry (registry s ++ [c]) s)
  end.

(** **** registerMetrics *)

Fixpoint registerEach (p : Prometheus) (ms : list nat) : M unit :=
  match ms with
  | [] => ret tt
  | m :: ms =>
      c <~ Metric_Collector m (jobName p) ;~
      e <~ Register c ;~
      match e with
      | Some e => logError p (RegistrationError e)
      | None => ret tt
      end ;~
      registerEach p ms
  end.

Definition registerMetrics (p : Prometheus) : M unit :=
  registerEach p (metrics p).

(** **** HandlerFunc *)

Definition Next (c : Context) : M Context := fun s =>
  let c := setIndex (index c + 1) c in
  let '(c, w) := runHandlers (handlersFrom c) c (world s) in
  Ret c (setWorld w s).

Fixpoint dispatch (ms : list nat) (start : Z) (c : Context) : M unit :=
  match ms with
  | [] => ret tt
  | m :: ms => Metric_Exec m start c ;~ dispatch ms start c
  end.

Definition HandlerFunc (p : Prometheus) (c : Context) : M Context :=
  match ReqURL (Req c) with
  | None => panic nilDereference
  | Some u =>
      if String.eqb (Path u) (metricsPath p) then ret c
      else
        start <~ Now ;~
        c <~ Next c ;~
        dispatch (metrics p) start c ;~
        ret c
  end.

(** The engine serving one request through the chain that starts at the
    metrics middleware: [c.Next()] with [index] reset before position 0. *)
Definition ServeHTTP (p : Prometheus) (c : Context) : M Context :=
  c <~ HandlerFunc p (setIndex 0 c) ;~
  Next c.

(** The same chain without the middleware. *)
Definition servePlain (c : Context) : M Context :=
  Next (setIndex 0 c).

(** **** The push forwarder *)

Definition NewRequest (method url body : string) : option HttpRequest :=
  if urlParses env url
  then Some {| hMethod := method; hURL := url; hAuthorization := None; hBody := body |}
  else None.

Definition setAuthorization (v : string) (r : HttpRequest) : HttpRequest :=
  {| hMethod := hMethod r; hURL := hURL r; hAuthorization := Some v; hBody := hBody r |}.

Definition send (r : HttpRequest) : M unit := fun s =>
  Ret tt (setSent (sent s ++ [r]) s).

(** The request [fetchMetrics] builds; [None] is a nil [*http.Request]. *)
Definition fetchRequest (p : Prometheus) : M (option HttpRequest) :=
  let req := NewRequest "GET" (MetricsURL p) "" in
  if String.eqb (metricsBasicAuth p) "" then ret req
  else match req with
       | Some r => ret (Some (setAuthorization (metricsBasicAuth p) r))
       | None => panic nilDereference
       end.

Definition fetchMetrics (p : Prometheus) (net : Net) : M string :=
  req <~ fetchRequest p ;~
  match req with
  | None => panic nilDereference
  | Some r =>
      send r ;~
      match doGet net r with
      | DoError _ => panic nilDereference
      | DoResponse body => ret body
      end
  end.

Definition GetPushGatewayURL (p : Prometheus) : string :=
  PushGatewayURL p +:+ "/metrics/job/" +:+ jobName p +:+ "/instance/" +:+ InstanceName p.

Definition sendToPushGateway (p : Prometheus) (net : Net) (metrics : string) : M unit :=
  if String.eqb (MetricsURL p) "" then ret tt
  else
    match NewRequest "POST" (GetPushGatewayURL p) metrics with
    | None => panic nilDereference
    | Some r =>
        send r ;~
        match doPost net r with
        | Some e => logError p (TransportError e)
        | None => ret tt
        end
    end.

(** The goroutine of [startPush], one [Net] per tick of the ticker.  A
    panic ends the loop (and the process). *)
Fixpoint pushLoop (p : Prometheus) (ticks : list Net) : M unit :=
  match ticks with
  | [] => ret tt
  | net :: ticks =>
      body <~ fetchMetrics p net ;~
      sendToPushGateway p net body ;~
      pushLoop p ticks
  end.

Definition startPush (p : Prometheus) : M unit := fun s =>
  if PushInterval p <=? 0 then Panicked "non-positive interval for NewTicker" s
  else Ret tt (setPushLoops (pushLoops s ++ [p]) s).

(** **** New *)

Definition ginUse (r : nat) : M unit := fun s =>
  Ret tt (setGinCalls (ginCalls s ++ [Use r]) s).

Definition ginGET (r : nat) (path : string) (auth : option Accounts) : M unit := fun s =>
  if routeAccepted env r path
  then Ret tt (setGinCalls (ginCalls s ++ [GET r path auth]) s)
  else Panicked "route refused" s.

(** gin.BasicAuth refuses an empty map and an empty user name. *)
Definition BasicAuth (accts : Accounts) : M unit :=
  match accts with
  | [] => panic "Empty list of authorized credentials"
  | _ => if existsb (fun a => String.eqb a.1 "") accts
         then panic "User can not be empty"
         else ret tt
  end.

Definition newPrometheus : Prometheus := {|
  router := None;
  exportRouter := None;
  accounts := None;
  metricsBasicAuth := "";
  PushInterval := DefaultPushInterval;
  PushGatewayURL := "";
  metrics := [];
  metricsPath := DefaultMetricsPath;
  jobName := DefaultJobName;
  Logger := 0%nat;
  LoggerTag := "gin-metrics";
  InstanceName := hostname env;
  MetricsURL := "";
|}.

Definition applyOptions (opts : list Option) (p : Prometheus) : Prometheus :=
  fold_left (fun p opt => opt p) opts p.

Definition basicAuthOf (a : string * string) : string :=
  Base64.EncodeToString (a.1 +:+ ":" +:+ a.2).

Definition New (opts : list Option) : M Prometheus :=
  let p := applyOptions opts newPrometheus in
  match router p with
  | Some r => ginUse r
  | None => ret tt
  end ;~
  p <~ match exportRouter p with
       | Some r =>
           match accounts p with
           | Some accts =>
               BasicAuth accts ;~
               ginGET r (metricsPath p) (Some accts) ;~
               ret (match rangeFirst (rangeSeed env) accts with
                    | Some a => setMetricsBasicAuth (basicAuthOf a) p
                    | None => p
                    end)
           | None =>
               ginGET r (metricsPath p) None ;~
               ret p
           end
       | None => ret p
       end ;~
  registerMetrics p ;~
  (if String.eqb (PushGatewayURL p) "" then ret tt else startPush p) ;~
  ret p.

End Facade.

(** ** Metric.Collector under concurrent callers

    [sync.Once.Do] spelled out as the standard library implements it (a
    fast-path load of [done], then a mutex, a second load, the call of the
    function, the deferred store of [done] and the deferred unlock), each
    caller advancing one step at a time under an arbitrary schedule. *)

Module Concurrent.

Inductive pc :=
| AtDo                               (* m.once.Do: load done *)
| AtLock                             (* doSlow: o.m.Lock() *)
| AtCheck                            (* lock held: load done again *)
| AtConstruct                        (* m.collector = NewMetric(m, jobName) *)
| AtStore                            (* deferred o.done.Store(1) *)
| AtUnlock                           (* deferred o.m.Unlock() *)
| AtReturn                           (* return m.collector *)
| Returned (c : option Collector).

Record Thread := {
  arg : string;                      (* the jobName this caller passes *)
  at_ : pc;
}.

Record CState := {
  metric : Metric;                   (* the shared struct; [once] is o.done *)
  mutex : option nat;                (* the caller holding o.m *)
  nextCid : nat;                     (* identity of the next collector built *)
  constructions : nat;               (* ghost: calls of NewMetric so far *)
  threads : list Thread;
}.

Definition assignCollector (c : option Collector) (m : Metric) : Metric :=
  {| collector := c; Name := Name m; Description := Description m;
     Type_ := Type_ m; Args := Args m; ExecFn := ExecFn m; once := once m |}.

Definition storeDone (m : Metric) : Metric :=
  {| collector := collector m; Name := Name m; Description := Description m;
     Type_ := Type_ m; Args := Args m; ExecFn := ExecFn m; once := true |}.

Definition goto (i : nat) (t : Thread) (l : pc) (st : CState) : CState :=
  {| metric := metric st; mutex := mutex st; nextCid := nextCid st;
     constructions := constructions st;
     threads := <[i := {| arg := arg t; at_ := l |}]> (threads st) |}.

Definition setMutex (o : option nat) (st : CState) : CState :=
  {| metric := metric st; mutex := o; nextCid := nextCid st;
     constructions := constructions st; threads := threads st |}.

Definition setMetric (m : Metric) (st : CState) : CState :=
  {| metric := m; mutex := mutex st; nextCid := nextCid st;
     constructions := constructions st; threads := threads st |}.

Definition construct (jobName : string) (st : CState) : CState :=
  {| metric := assignCollector (NewMetric (metric st) jobName (nextCid st)) (metric st);
     mutex := mutex st;
     nextCid := S (nextCid st);
     constructions := S (constructions st);
     threads := threads st |}.

(** One step of caller [i]; [None] when it is blocked on the mutex, has
    returned, or does not exist. *)
Definition step (i : nat) (st : CState) : option CState :=
  match threads st !! i with
  | None => None
  | Some t =>
      match at_ t with
      | AtDo =>
          if once (metric st) then Some (goto i t AtReturn st)
          else Some (goto i t AtLock st)
      | AtLock =>
          match mutex st with
          | None => Some (goto i t AtCheck (setMutex (Some i) st))
          | Some _ => None
          end
      | AtCheck =>
          if once (metric st) then Some (goto i t AtUnlock st)
          else Some (goto i t AtConstruct st)
      | AtConstruct => Some (goto i t AtStore (construct (arg t) st))
      | AtStore => Some (goto i t AtUnlock (setMetric (storeDone (metric st)) st))
      | AtUnlock => Some (goto i t AtReturn (setMutex None st))
      | AtReturn => Some (goto i t (Returned (collector (metric st))) st)
      | Returned _ => None
      end
  end.

(** A schedule names the caller that moves next; naming a caller that
    cannot move leaves the state as it is. *)
Definition run (schedule : list nat) (st : CState) : CState :=
  foldl (fun st i => default st (step i st)) st schedule.

Definition init (m : Metric) (next : nat) (jobNames : list string) : CState :=
  {| metric := m; mutex := None; nextCid := next; constructions := 0;
     threads := (fun j => {| arg := j; at_ := AtDo |}) <$> jobNames |}.

Definition result (st : CState) (i : nat) : option (option Collector) :=
  match threads st !! i with
  | Some {| at_ := Returned c |} => Some c
  | _ => None
  end.

Definition inCritical (l : pc) : bool :=
  match l with
  | AtCheck | AtConstruct | AtStore | AtUnlock => true
  | _ => false
  end.

(** What the position of caller [i] says about the shared state. *)
Definition local (st : CState) (i : nat) (l : pc) : Prop :=
  (inCritical l = true -> mutex st = Some i)
  /\ match l with
     | AtConstruct => once (metric st) = false
     | AtStore => once (metric st) = false /\ constructions st = 1%nat
     | AtUnlock | AtReturn => once (metric st) = true
     | Returned c => once (metric st) = true /\ c = collector (metric st)
     | AtDo | AtLock | AtCheck => True
     end.

(** The invariant of the protocol. *)
Record Inv (st : CState) : Prop := {
  inv_local : forall i t, threads st !! i = Some t -> local st i (at_ t);
  inv_mutex : forall i,
    mutex st = Some i ->
    exists t, threads st !! i = Some t /\ inCritical (at_ t) = true;
  inv_count :
    constructions st = 0%nat
    \/ (constructions st = 1%nat
        /\ (once (metric st) = true
            \/ exists i t, threads st !! i = Some t /\ at_ t = AtStore));
}.



(** Every caller has returned. *)
Definition finished (st : CState) : Prop :=
  forall i t, threads st !! i = Some t -> exists c, at_ t = Returned c.

End Concurrent.

(** ** Sample configurations *)

Definition emptyWorld : World := {| clock := 0; values := ∅ |}.

(** A process in which only the given Metric structs exist. *)
Definition startState (hp : list Metric) : State := {|
  world := emptyWorld;
  heap := hp;
  nextId := 0;
  registry := [];
  logged := [];
  execd := [];
  ginCalls := [];
  sent := [];
  pushLoops := [];
|}.

Definition advance (d : Z) (s : State) : State :=
  setWorld {| clock := clock (world s) + d; values := values (world s) |} s.

(** A handler answering 200 with a two-byte body after [d] nanoseconds. *)
Definition okHandler (d : Z) : Handler := fun _ _ w =>
  ({| Status := 200; Size := 2 |}, {| clock := clock w + d; values := values w |}).

Definition requestTo (path : string) : Request := {|
  Method := "GET";
  ReqURL := Some {| Path := path |};
  Proto := "HTTP/1.1";
  Header := [];
  Host := "h";
  ContentLength := -1;
|}.

Definition contextFor (path : string) (hs : list Handler) : Context := {|
  Req := requestTo path;
  Writer := {| Status := 200; Size := -1 |};
  index := -1;
  handlers := hs;
|}.

(** An environment in which every descriptor, URL and route is accepted. *)
Definition plainEnv : Env := {|
  hostname := "host-1";
  rangeSeed := 0;
  validDesc := fun _ _ => true;
  urlParses := fun _ => true;
  routeAccepted := fun _ _ => true;
|}.

(** A metric declared as a counter whose update function is the one of
    [ResponseSize], which expects a summary. *)
Definition mismatched : Metric := {|
  collector := None;
  Name := "test_metric";
  Description := "Counter test metric";
  Type_ := "counter";
  Args := [];
  ExecFn := ExecFn ResponseSize;
  once := false;
|}.

(** The facade with the metrics at addresses 0 and 1, after registration. *)
Definition twoMetrics : Prometheus :=
  applyOptions [WithMetrics [0%nat; 1%nat]] (newPrometheus plainEnv).

Definition registered (hp : list Metric) : State :=
  stateOf (registerMetrics plainEnv twoMetrics (startState hp)).

(** A definition of a kind the factory does not know, and a vector
    definition without label names. *)
Definition unknownKind : Metric := {|
  collector := None;
  Name := "queue_depth";
  Description := "Depth of the queue.";
  Type_ := "meter";
  Args := [];
  ExecFn := fun _ _ _ w => Ret tt w;
  once := false;
|}.


(** A facade that pushes to a gateway, with and without a local fetch URL. *)
Definition pushing : Prometheus :=
  applyOptions [WithPushGatewayUrl "http://pgw:9091";
                WithMetricsURL "http://localhost:8080/metrics"]
    (newPrometheus plainEnv).

Definition pushingWithoutURL : Prometheus :=
  applyOptions [WithPushGatewayUrl "http://pgw:9091"] (newPrometheus plainEnv).

Definition netDown : Net := {|
  doGet := fun _ => DoError "connection refused";
  doPost := fun _ => None;
|}.

Definition netUp : Net := {|
  doGet := fun _ => DoResponse "up 1";
  doPost := fun _ => None;
|}.

Definition netEmpty : Net := {|
  doGet := fun _ => DoResponse "";
  doPost := fun _ => None;
|}.

(** The POST requests among the requests handed to an HTTP client. *)
Definition posts (l : list HttpRequest) : list HttpRequest :=
  List.filter (fun r => String.eqb (hMethod r) "POST") l.

(** An option that leaves the unexported field [metricsBasicAuth] alone, as
    every option of the package does and as one written outside it must. *)
Definition keepsBasicAuth (o : Option) : Prop :=
  forall p, metricsBasicAuth (o p) = metricsBasicAuth p.

Fixpoint noSpace (s : string) : bool :=
  match s with
  | EmptyString => true
  | String c s => negb (Ascii.eqb c " ") && noSpace s
  end.

Definition exporting : list Option :=
  [WithExportRouter 1; WithExportAccounts (Some [("admin", "secret")]);
   WithMetricsURL "http://localhost:8080/metrics"].





Definition slowTwice : list Metric := [SlowRequestTotal 0; SlowRequestTotal Second].

(** ** Calls of the options, as data

    A call of one of the thirteen options of the package, and the option it
    denotes. *)
Inductive OptionCall :=
| CallWithRouter (r : nat)
| CallWithExportRouter (r : nat)
| CallWithMetricsPath (s : string)
| CallWithMetrics (ms : list nat)
| CallWithPushGatewayUrl (pgw : string)
| CallWithExportAccounts (accts : option Accounts)
| CallWithPushInterval (t : Z)
| CallWithPushPushGatewayURL (url : string)
| CallWithJobName (name : string)
| CallWithLogger (l : nat)
| CallWithLoggerTag (tag : string)
| CallWithInstanceName (name : string)
| CallWithMetricsURL (url : string).

Definition toOption (c : OptionCall) : Option :=
  match c with
  | CallWithRouter r => WithRouter r
  | CallWithExportRouter r => WithExportRouter r
  | CallWithMetricsPath s => WithMetricsPath s
  | CallWithMetrics ms => WithMetrics ms
  | CallWithPushGatewayUrl pgw => WithPushGatewayUrl pgw
  | CallWithExportAccounts accts => WithExportAccounts accts
  | CallWithPushInterval t => WithPushInterval t
  | CallWithPushPushGatewayURL url => WithPushPushGatewayURL url
  | CallWithJobName name => WithJobName name
  | CallWithLogger l => WithLogger l
  | CallWithLoggerTag tag => WithLoggerTag tag
  | CallWithInstanceName name => WithInstanceName name
  | CallWithMetricsURL url => WithMetricsURL url
  end.

(** The metrics a call adds, and the push gateway URL it sets. *)
Definition metricsArg (c : OptionCall) : list nat :=
  match c with CallWithMetrics ms => ms | _ => [] end.

Definition gatewayArg (c : OptionCall) : option string :=
  match c with
  | CallWithPushGatewayUrl url | CallWithPushPushGatewayURL url => Some url
  | _ => None
  end.

(** The two requests of a tick of the push loop. *)
Definition getRequestOf (p : Prometheus) : HttpRequest := {|
  hMethod := "GET";
  hURL := MetricsURL p;
  hAuthorization :=
    if String.eqb (metricsBasicAuth p) "" then None else Some (metricsBasicAuth p);
  hBody := "";
|}.

Definition postRequestOf (p : Prometheus) (body : string) : HttpRequest := {|
  hMethod := "POST";
  hURL := PushGatewayURL p +:+ "/metrics/job/" +:+ jobName p
          +:+ "/instance/" +:+ InstanceName p;
  hAuthorization := None;
  hBody := body;
|}.


(** The struct at [m] has had its collector built, and it is not nil. *)
Definition constructed (hp : list Metric) (m : nat) : Prop :=
  exists mt c, hp !! m = Some mt /\ once mt = true /\ collector mt = Some c.

(** The log entry of a failed push. *)
Definition pushFailure (p : Prometheus) (e : string) : LogEntry :=
  {| sink := Logger p; tag := LoggerTag p; err := TransportError e |}.


(** * Properties *)

(** ** Go integers *)

Lemma wrap_id z : GoInt.inRange z -> GoInt.wrap z = z.
Proof.
  unfold GoInt.inRange, GoInt.wrap. intros H.
  rewrite Z.mod_small by lia. lia.
Qed.

Lemma wrap_add_l a b : GoInt.wrap (GoInt.wrap a + b) = GoInt.wrap (a + b).
Proof.
  unfold GoInt.wrap.
  replace ((a + 2 ^ 63) `mod` 2 ^ 64 - 2 ^ 63 + b + 2 ^ 63)
    with ((a + 2 ^ 63) `mod` 2 ^ 64 + b) by lia.
  rewrite Zplus_mod_idemp_l. f_equal. f_equal. lia.
Qed.

Lemma wrap_add_r a b : GoInt.wrap (a + GoInt.wrap b) = GoInt.wrap (a + b).
Proof. rewrite Z.add_comm, wrap_add_l. f_equal. lia. Qed.

Lemma wrap_wrap a : GoInt.wrap (GoInt.wrap a) = GoInt.wrap a.
Proof. pose proof (wrap_add_l a 0) as H. rewrite !Z.add_0_r in H. exact H. Qed.

Lemma len_nonneg s : 0 <= GoInt.len s.
Proof. unfold GoInt.len. lia. Qed.

(** ** The request size *)

Lemma valuesLength_nonneg vs : 0 <= valuesLength vs.
Proof.
  induction vs as [|v vs IH]; simpl; [lia|].
  pose proof (len_nonneg v). lia.
Qed.

Lemma headerLength_nonneg hs : 0 <= headerLength hs.
Proof.
  induction hs as [|h hs IH]; simpl; [lia|].
  pose proof (len_nonneg h.1). pose proof (valuesLength_nonneg h.2). lia.
Qed.

Lemma addValues_wrap vs : forall s,
  GoInt.wrap (addValues s vs) = GoInt.wrap (s + valuesLength vs).
Proof.
  unfold addValues.
  induction vs as [|v vs IH]; intros s; simpl.
  - f_equal. lia.
  - rewrite IH. unfold GoInt.add. rewrite wrap_add_l. f_equal. lia.
Qed.

Lemma addHeader_wrap hs : forall s,
  GoInt.wrap (fold_left addHeader hs s) = GoInt.wrap (s + headerLength hs).
Proof.
  induction hs as [|h hs IH]; intros s; simpl.
  - f_equal. lia.
  - rewrite IH. rewrite <- wrap_add_l.
    unfold addHeader. rewrite addValues_wrap.
    unfold GoInt.add. rewrite !wrap_add_l, <- !Z.add_assoc, wrap_add_l. f_equal. lia.
Qed.

(** The computed size is the sum with the code's guard, wrapped to [int]. *)
Lemma computeApproximateRequestSize_raw r :
  computeApproximateRequestSize r = GoInt.wrap (rawSize r).
Proof.
  unfold computeApproximateRequestSize, rawSize, urlPath, GoInt.add.
  set (s0 := match ReqURL r with Some u => GoInt.len (Path u) | None => 0 end).
  assert (Hs0 : GoInt.len (match ReqURL r with Some u => Path u | None => "" end) = s0).
  { subst s0. destruct (ReqURL r); reflexivity. }
  rewrite Hs0.
  rewrite <- (wrap_add_l (fold_left _ _ _)), addHeader_wrap, !wrap_add_l.
  destruct (ContentLength r =? -1).
  - rewrite <- !Z.add_assoc, wrap_add_l. f_equal. lia.
  - rewrite wrap_add_r, <- !Z.add_assoc, wrap_add_l. f_equal. lia.
Qed.

Lemma headerLength_perm hs hs' :
  Permutation hs hs' -> headerLength hs = headerLength hs'.
Proof.
  induction 1; simpl; lia.
Qed.

Lemma documentedSize_raw r :
  -1 <= ContentLength r -> rawSize r = documentedSize r.
Proof.
  intros H. unfold rawSize, documentedSize.
  destruct (Z.eqb_spec (ContentLength r) (-1)) as [->|Hne]; [reflexivity|].
  destruct (Z.leb_spec 0 (ContentLength r)); lia.
Qed.

Lemma documentedSize_nonneg r : 0 <= documentedSize r.
Proof.
  unfold documentedSize.
  pose proof (len_nonneg (urlPath r)). pose proof (len_nonneg (Method r)).
  pose proof (len_nonneg (Proto r)). pose proof (len_nonneg (Host r)).
  pose proof (headerLength_nonneg (Header r)).
  destruct (Z.leb_spec 0 (ContentLength r)); lia.
Qed.

(** C5: on a request as net/http delivers it (content length -1 or more)
    whose documented sum (path, method, protocol, header names and values,
    host, plus the content length when it is non-negative) fits Go's [int],
    the computed size is that sum; the size does not depend on the order in
    which the header map is traversed; and the request GET /a HTTP/1.1 with
    host h, no headers and content length -1 has size 14. *)
Theorem request_size_is_documented_sum :
  (forall r, -1 <= ContentLength r -> documentedSize r < 2 ^ 63 ->
     computeApproximateRequestSize r = documentedSize r)
  /\ (forall r r',
        Method r = Method r' -> ReqURL r = ReqURL r' -> Proto r = Proto r' ->
        Host r = Host r' -> ContentLength r = ContentLength r' ->
        Permutation (Header r) (Header r') ->
        computeApproximateRequestSize r = computeApproximateRequestSize r')
  /\ computeApproximateRequestSize exampleGet = 14.
Proof.
  split; [|split].
  - intros r Hcl Hfit.
    rewrite computeApproximateRequestSize_raw, documentedSize_raw by assumption.
    apply wrap_id. pose proof (documentedSize_nonneg r).
    unfold GoInt.inRange. lia.
  - intros r r' Hm Hu Hp Hh Hc Hperm.
    rewrite !computeApproximateRequestSize_raw. f_equal.
    unfold rawSize, urlPath.
    rewrite Hm, Hu, Hp, Hh, Hc, (headerLength_perm _ _ Hperm). reflexivity.
  - reflexivity.
Qed.

(** The guard of the code is "different from -1": any other content
    length is added, whatever its sign. *)
Remark content_length_guard r :
  ContentLength r <> -1 ->
  computeApproximateRequestSize r
  = GoInt.wrap (GoInt.len (urlPath r) + GoInt.len (Method r) + GoInt.len (Proto r)
                + headerLength (Header r) + GoInt.len (Host r) + ContentLength r).
Proof.
  intros Hne. rewrite computeApproximateRequestSize_raw. unfold rawSize.
  destruct (Z.eqb_spec (ContentLength r) (-1)); [contradiction | reflexivity].
Qed.

Lemma request_size_is_documented_sum_witness :
  computeApproximateRequestSize
    {| Method := "POST"; ReqURL := Some {| Path := "/upload" |};
       Proto := "HTTP/1.1";
       Header := [("Content-Type", ["text/plain"]); ("Accept", ["a"; "bc"])];
       Host := "example.org"; ContentLength := 120 |} = 181.
Proof.
  rewrite (proj1 request_size_is_documented_sum); [reflexivity | simpl; lia | vm_compute; reflexivity].
Defined.

(** ** The monad *)

Lemma bind_Ret {S A B} (m : S -> Outcome S A) (k : A -> S -> Outcome S B) s b s' :
  bind m k s = Ret b s' ->
  exists a s1, m s = Ret a s1 /\ k a s1 = Ret b s'.
Proof.
  unfold bind. destruct (m s) as [a s1|]; [eauto | discriminate].
Qed.

Lemma bind_stateOf {S A B} (m : S -> Outcome S A) (k : A -> S -> Outcome S B) s :
  stateOf (bind m k s) =
    match m s with
    | Ret a s1 => stateOf (k a s1)
    | Panicked _ s1 => s1
    end.
Proof. unfold bind. destruct (m s); reflexivity. Qed.

(** ** State bookkeeping *)

Lemma world_setExecd x s : world (setExecd x s) = world s.
Proof. destruct s; reflexivity. Qed.

Lemma execd_setExecd x s : execd (setExecd x s) = x.
Proof. destruct s; reflexivity. Qed.

Lemma execd_setWorld w s : execd (setWorld w s) = execd s.
Proof. destruct s; reflexivity. Qed.

Lemma world_setWorld w s : world (setWorld w s) = w.
Proof. destruct s; reflexivity. Qed.

Lemma heap_setWorld w s : heap (setWorld w s) = heap s.
Proof. destruct s; reflexivity. Qed.

Lemma heap_setExecd x s : heap (setExecd x s) = heap s.
Proof. destruct s; reflexivity. Qed.

Lemma heap_setHeap hp n s : heap (setHeap hp n s) = hp.
Proof. destruct s; reflexivity. Qed.

Lemma logged_setHeap hp n s : logged (setHeap hp n s) = logged s.
Proof. destruct s; reflexivity. Qed.

Lemma received_record c u w : received (record c u w) c = received w c ++ [u].
Proof. unfold received, record; simpl. rewrite lookup_insert_eq. reflexivity. Qed.

Lemma counterValue_record_Inc c lvs w :
  counterValue (record c (Inc lvs) w) c = counterValue w c + 1.
Proof.
  unfold counterValue. rewrite received_record, List.filter_app, length_app.
  simpl. lia.
Qed.

(** ** Metric.Collector, one caller at a time *)

Lemma Metric_Collector_fresh s m mt jobName :
  heap s !! m = Some mt -> once mt = false ->
  Metric_Collector m jobName s =
    Ret (NewMetric mt jobName (nextId s))
        (setHeap (<[m := setCollector (NewMetric mt jobName (nextId s)) mt]> (heap s))
                 (match NewMetric mt jobName (nextId s) with
                  | Some _ => S (nextId s)
                  | None => nextId s
                  end) s).
Proof. intros Hm Ho. unfold Metric_Collector. rewrite Hm, Ho. reflexivity. Qed.

Lemma Metric_Collector_cached s m mt jobName :
  heap s !! m = Some mt -> once mt = true ->
  Metric_Collector m jobName s = Ret (collector mt) s.
Proof. intros Hm Ho. unfold Metric_Collector. rewrite Hm, Ho. reflexivity. Qed.

Lemma Metric_Collector_heap s m mt jobName c s' :
  heap s !! m = Some mt ->
  Metric_Collector m jobName s = Ret c s' ->
  exists mt', heap s' !! m = Some mt' /\ collector mt' = c /\ once mt' = true
              /\ ExecFn mt' = ExecFn mt.
Proof.
  intros Hm. unfold Metric_Collector. rewrite Hm.
  destruct (once mt) eqn:Ho; intros [= <- <-].
  - eauto.
  - eexists. rewrite heap_setHeap, list_lookup_insert_eq.
    + repeat split; reflexivity.
    + eapply lookup_lt_Some; eassumption.
Qed.

(** ** The slow-request counter *)

(** C6: once the collector of a slow-request metric with threshold [T] has
    been obtained, dispatching a request to it returns normally and adds
    one to the counter exactly when the time elapsed since the recorded
    start is strictly greater than [T]; otherwise (in particular when the
    elapsed time equals [T]) the world is left as it was. *)
Theorem slow_request_counts_iff_exceeds :
  forall (T : Z) (m : nat) (jobName : string) (s s1 : State) (c : option Collector),
    heap s !! m = Some (SlowRequestTotal T) ->
    Metric_Collector m jobName s = Ret c s1 ->
    forall (s2 : State) (startTime : Z) (ctx : Context),
      heap s2 !! m = heap s1 !! m ->
      exists cc s3,
        c = Some cc
        /\ Metric_Exec m startTime ctx s2 = Ret tt s3
        /\ (counterValue (world s3) cc = counterValue (world s2) cc + 1
            <-> T < Since (world s2) startTime)
        /\ (Since (world s2) startTime <= T -> world s3 = world s2).
Proof.
  intros T m jobName s s1 c Hm Hc s2 startTime ctx Hsame.
  rewrite (Metric_Collector_fresh _ _ _ _ Hm eq_refl) in Hc.
  injection Hc as <- <-.
  rewrite heap_setHeap, list_lookup_insert_eq in Hsame
    by (eapply lookup_lt_Some; eassumption).
  simpl in Hsame.
  eexists. unfold Metric_Exec. rewrite Hsame. simpl.
  rewrite world_setExecd.
  destruct (Z.ltb_spec T (Since (world s2) startTime)) as [Hslow|Hfast]; simpl;
    eexists; (split; [reflexivity|]); (split; [reflexivity|]).
  - rewrite world_setWorld. split; [|lia].
    split; [intros _; exact Hslow|intros _].
    apply counterValue_record_Inc.
  - rewrite world_setWorld.
    split; [|reflexivity]. lia.
Qed.

Lemma slow_request_counts_iff_exceeds_witness :
  let s0 := startState [SlowRequestTotal Second] in
  let s1 := stateOf (Metric_Collector 0 "gin" s0) in
  let s2 := advance (2 * Second) s1 in
  exists cc s3,
    NewMetric (SlowRequestTotal Second) "gin" 0 = Some cc
    /\ Metric_Exec 0 0 (contextFor "/hello" []) s2 = Ret tt s3
    /\ (counterValue (world s3) cc = counterValue (world s2) cc + 1
        <-> Second < Since (world s2) 0)
    /\ (Since (world s2) 0 <= Second -> world s3 = world s2).
Proof.
  exact (slow_request_counts_iff_exceeds Second 0 "gin"
           (startState [SlowRequestTotal Second]) _ _ eq_refl eq_refl
           (advance (2 * Second)
              (stateOf (Metric_Collector 0 "gin" (startState [SlowRequestTotal Second]))))
           0 (contextFor "/hello" []) eq_refl).
Defined.

(** ** Dispatch *)

Lemma Next_ret c s :
  exists c' w, Next c s = Ret c' (setWorld w s).
Proof.
  unfold Next.
  destruct (runHandlers _ _ _) as [c' w]. eauto.
Qed.

Lemma Next_execd c s c' s' : Next c s = Ret c' s' -> execd s' = execd s.
Proof.
  destruct (Next_ret c s) as (c1 & w & ->). intros [= _ <-].
  apply execd_setWorld.
Qed.

Lemma dispatch_app pre post start c s :
  dispatch (pre ++ post) start c s =
    match dispatch pre start c s with
    | Ret _ s1 => dispatch post start c s1
    | Panicked msg s1 => Panicked msg s1
    end.
Proof.
  revert s. induction pre as [|m pre IH]; intros s; simpl; [reflexivity|].
  unfold bind. destruct (Metric_Exec m start c s); [apply IH | reflexivity].
Qed.

Lemma Metric_Exec_execd m start c s s' :
  Metric_Exec m start c s = Ret tt s' -> execd s' = execd s ++ [m].
Proof.
  unfold Metric_Exec. destruct (heap s !! m) as [mt|]; [|discriminate].
  destruct (ExecFn mt _ _ _ _); [|discriminate].
  intros [= <-]. rewrite execd_setWorld, execd_setExecd. reflexivity.
Qed.

Lemma dispatch_execd ms start c : forall s s',
  dispatch ms start c s = Ret tt s' -> execd s' = execd s ++ ms.
Proof.
  induction ms as [|m ms IH]; intros s s'; simpl.
  - intros [= <-]. rewrite app_nil_r. reflexivity.
  - unfold bind. destruct (Metric_Exec m start c s) as [[] s1|] eqn:He; [|discriminate].
    intros H. rewrite (IH _ _ H), (Metric_Exec_execd _ _ _ _ _ He), <- app_assoc.
    reflexivity.
Qed.

Lemma HandlerFunc_instrumented p c u s :
  ReqURL (Req c) = Some u -> Path u <> metricsPath p ->
  HandlerFunc p c s =
    match Next c s with
    | Ret c1 s1 =>
        match dispatch (metrics p) (clock (world s)) c1 s1 with
        | Ret _ s2 => Ret c1 s2
        | Panicked msg s2 => Panicked msg s2
        end
    | Panicked msg s1 => Panicked msg s1
    end.
Proof.
  intros Hu Hne. unfold HandlerFunc. rewrite Hu.
  apply String.eqb_neq in Hne. rewrite Hne.
  unfold bind, Now, ret.
  destruct (Next c s); [|reflexivity].
  destruct (dispatch _ _ _ _); reflexivity.
Qed.

(** C1, as the code has it: the interceptor does not recover a failure
    inside a metric's Exec.  On a request that is instrumented, when the
    update function of a registered metric panics (as a collector of the
    wrong kind makes it do), the panic leaves the handler function after
    the wrapped handlers have run: the metrics registered before the failing
    one have executed, in order, and none after it has.  When no Exec fails,
    every registered metric executes once, in registration order. *)
Theorem failing_exec_propagates :
  forall (p : Prometheus) (c : Context) (u : URL) (s : State),
    ReqURL (Req c) = Some u -> Path u <> metricsPath p ->
    forall (c1 : Context) (s1 : State),
      Next c s = Ret c1 s1 ->
      (forall pre m post mt s2 msg w,
          metrics p = pre ++ m :: post ->
          dispatch pre (clock (world s)) c1 s1 = Ret tt s2 ->
          heap s2 !! m = Some mt ->
          ExecFn mt (collector mt) (clock (world s)) c1 (world s2) = Panicked msg w ->
          exists s3,
            HandlerFunc p c s = Panicked msg s3
            /\ execd s3 = execd s ++ pre ++ [m]
            /\ world s3 = w)
      /\ (forall s2,
            dispatch (metrics p) (clock (world s)) c1 s1 = Ret tt s2 ->
            HandlerFunc p c s = Ret c1 s2
            /\ execd s2 = execd s ++ metrics p).
Proof.
  intros p c u s Hu Hne c1 s1 Hnext.
  rewrite (HandlerFunc_instrumented _ _ _ _ Hu Hne), Hnext.
  split.
  - intros pre m post mt s2 msg w Hms Hpre Hm Hfail.
    rewrite Hms, dispatch_app, Hpre. simpl. unfold bind, Metric_Exec.
    rewrite Hm, world_setExecd, Hfail.
    eexists. split; [reflexivity|].
    rewrite execd_setWorld, execd_setExecd, world_setWorld.
    rewrite (dispatch_execd _ _ _ _ _ Hpre), (Next_execd _ _ _ _ Hnext), app_assoc.
    split; reflexivity.
  - intros s2 Hall. rewrite Hall. split; [reflexivity|].
    rewrite (dispatch_execd _ _ _ _ _ Hall), (Next_execd _ _ _ _ Hnext).
    reflexivity.
Qed.

(** The isolation the specification asks for does not hold: with a counter-typed metric whose update
    function expects a summary registered first and a slow-request counter
    second, a request to /hello makes the handler function panic, and only
    the first metric's Exec was entered. *)
Lemma failing_exec_not_isolated :
  let r := HandlerFunc twoMetrics (contextFor "/hello" [okHandler 5])
             (registered [mismatched; SlowRequestTotal 0]) in
  metrics twoMetrics = [0%nat; 1%nat]
  /\ returned r = false
  /\ execd (stateOf r) = [0%nat].
Proof. vm_compute. repeat split; reflexivity. Qed.

Lemma failing_exec_propagates_witness :
  exists s3,
    HandlerFunc twoMetrics (contextFor "/hello" [okHandler 5])
      (registered [mismatched; SlowRequestTotal 0]) = Panicked conversionPanic s3
    /\ execd s3 = [0%nat].
Proof.
  destruct (failing_exec_propagates twoMetrics (contextFor "/hello" [okHandler 5])
              {| Path := "/hello" |} (registered [mismatched; SlowRequestTotal 0])
              eq_refl ltac:(discriminate) _ _ eq_refl) as [Hfail _].
  destruct (Hfail [] 0%nat [1%nat] _ _ _ _ eq_refl eq_refl eq_refl eq_refl)
    as (s3 & H1 & H2 & _).
  exists s3. split; [exact H1 | exact H2].
Defined.

(** ** Self-exclusion of the export path *)

Lemma execd_Next c s : execd (stateOf (Next c s)) = execd s.
Proof.
  destruct (Next_ret c s) as (c' & w & ->). apply execd_setWorld.
Qed.

(** C2: the export path defaults to "metrics", and on a request whose URL
    path equals the configured export path the handler function returns at
    once, leaving the context and the whole state as they were; served
    through the chain, the request reaches the handlers behind the
    middleware exactly as it does without the middleware, and no metric's
    Exec is entered. *)
Theorem export_path_skips_instrumentation :
  (forall env, metricsPath (newPrometheus env) = "metrics")
  /\ (forall (p : Prometheus) (c : Context) (u : URL) (s : State),
        ReqURL (Req c) = Some u -> Path u = metricsPath p ->
        HandlerFunc p c s = Ret c s
        /\ ServeHTTP p c s = servePlain c s
        /\ execd (stateOf (ServeHTTP p c s)) = execd s).
Proof.
  split; [reflexivity|].
  intros p c u s Hu Hpath.
  assert (Hskip : forall c', Req c' = Req c -> HandlerFunc p c' s = Ret c' s).
  { intros c' Hreq. unfold HandlerFunc. rewrite Hreq, Hu.
    apply String.eqb_eq in Hpath. rewrite Hpath. reflexivity. }
  assert (Hserve : ServeHTTP p c s = servePlain c s).
  { unfold ServeHTTP, servePlain, bind. rewrite Hskip by reflexivity. reflexivity. }
  split; [apply Hskip; reflexivity|]. split; [exact Hserve|].
  rewrite Hserve. apply execd_Next.
Qed.

Lemma export_path_skips_instrumentation_witness :
  let p := WithMetricsPath "/metrics" twoMetrics in
  let c := contextFor "/metrics" [okHandler 5] in
  let s := registered [ResponseSize; SlowRequestTotal 0] in
  HandlerFunc p c s = Ret c s
  /\ ServeHTTP p c s = servePlain c s
  /\ execd (stateOf (ServeHTTP p c s)) = execd s.
Proof.
  exact (proj2 export_path_skips_instrumentation
           (WithMetricsPath "/metrics" twoMetrics)
           (contextFor "/metrics" [okHandler 5]) {| Path := "/metrics" |}
           (registered [ResponseSize; SlowRequestTotal 0]) eq_refl eq_refl).
Defined.

(** With the default export path, which has no leading slash, a request to
    /metrics is instrumented like any other. *)
Remark default_export_path_is_instrumented :
  execd (stateOf (ServeHTTP twoMetrics (contextFor "/metrics" [okHandler 5])
                    (registered [ResponseSize; SlowRequestTotal 0])))
  = [0%nat; 1%nat].
Proof. vm_compute. reflexivity. Qed.

(** ** The collector factory *)

Lemma NewMetric_unrecognized m subsystem fresh :
  recognized (Type_ m) = false -> NewMetric m subsystem fresh = None.
Proof.
  unfold recognized, NewMetric. intros H.
  apply bool_decide_eq_false in H.
  repeat match goal with
         | |- context [String.eqb ?a ?b] =>
             destruct (String.eqb_spec a b) as [Heq|_];
             [exfalso; apply H; rewrite Heq; set_solver|]
         end.
  reflexivity.
Qed.





(** ** The push forwarder *)

Lemma sent_setSent x s : sent (setSent x s) = x.
Proof. destruct s; reflexivity. Qed.

Lemma sent_setLogged x s : sent (setLogged x s) = sent s.
Proof. destruct s; reflexivity. Qed.

Lemma fetchRequest_state env p s :
  stateOf (fetchRequest env p s) = s.
Proof.
  unfold fetchRequest.
  destruct (String.eqb _ _); [reflexivity|].
  destruct (NewRequest _ _ _ _); reflexivity.
Qed.

Lemma fetchRequest_method env p s r s' :
  fetchRequest env p s = Ret (Some r) s' -> hMethod r = "GET".
Proof.
  unfold fetchRequest, NewRequest.
  destruct (String.eqb _ _), (urlParses env _); simpl; try discriminate;
    intros [= <- _]; reflexivity.
Qed.

(** A failed local fetch: the request was handed to the client, the nil
    response is dereferenced, and the loop is over. *)
Lemma fetch_failure_panics env p net ticks s r msg :
  fetchRequest env p s = Ret (Some r) s ->
  doGet net r = DoError msg ->
  pushLoop env p (net :: ticks) s = Panicked nilDereference (setSent (sent s ++ [r]) s).
Proof.
  intros Hreq Hget. simpl. unfold bind at 1. unfold fetchMetrics, bind.
  rewrite Hreq. unfold send. rewrite Hget. reflexivity.
Qed.

(** C4 at the failing input: the local endpoint refuses the connection on
    the first tick and answers on the second.  The loop panics on the first
    tick, after the GET and before any POST; the second tick is never
    served.  When the endpoint answers on both ticks, both ticks fetch and
    push; an answer with an empty body is pushed like any other. *)
Theorem fetch_failure_ends_push_loop :
  let down := pushLoop plainEnv pushing [netDown; netUp] (startState []) in
  let up := pushLoop plainEnv pushing [netUp; netUp] (startState []) in
  let empty := pushLoop plainEnv pushing [netEmpty] (startState []) in
  down = Panicked nilDereference (stateOf down)
  /\ (hMethod <$> sent (stateOf down)) = ["GET"]
  /\ logged (stateOf down) = []
  /\ returned up = true
  /\ (hMethod <$> sent (stateOf up)) = ["GET"; "POST"; "GET"; "POST"]
  /\ returned empty = true
  /\ ((fun r => (hMethod r, hBody r)) <$> sent (stateOf empty))
     = [("GET", ""); ("POST", "")].
Proof. vm_compute. repeat split; reflexivity. Qed.

Lemma posts_app l1 l2 : posts (l1 ++ l2) = posts l1 ++ posts l2.
Proof. apply List.filter_app. Qed.

Lemma fetchMetrics_posts env p net s :
  posts (sent (stateOf (fetchMetrics env p net s))) = posts (sent s).
Proof.
  unfold fetchMetrics, bind.
  pose proof (fetchRequest_state env p s) as Hst.
  destruct (fetchRequest env p s) as [[r|] s1|msg s1] eqn:Hreq;
    simpl in Hst; subst s1; simpl; try reflexivity.
  pose proof (fetchRequest_method _ _ _ _ _ Hreq) as Hget.
  assert (Hp : posts (sent (setSent (sent s ++ [r]) s)) = posts (sent s)).
  { rewrite sent_setSent, posts_app. unfold posts at 2. simpl.
    rewrite Hget. simpl. apply app_nil_r. }
  unfold send. destruct (doGet net r); simpl; exact Hp.
Qed.

(** C9: with an empty local fetch URL, sendToPushGateway returns at once
    and leaves the state as it was, whatever it is given; and whatever the
    network does and however many ticks the push loop runs, it hands no
    POST to an HTTP client. *)
Theorem empty_metrics_url_never_posts :
  forall (env : Env) (p : Prometheus),
    MetricsURL p = "" ->
    (forall net body s, sendToPushGateway env p net body s = Ret tt s)
    /\ (forall ticks s,
          posts (sent (stateOf (pushLoop env p ticks s))) = posts (sent s)).
Proof.
  intros env p Hurl.
  assert (Hsend : forall net body s, sendToPushGateway env p net body s = Ret tt s).
  { intros net body s. unfold sendToPushGateway. rewrite Hurl. reflexivity. }
  split; [exact Hsend|].
  induction ticks as [|net ticks IH]; intros s; simpl; [reflexivity|].
  unfold bind at 1.
  pose proof (fetchMetrics_posts env p net s) as Hfetch.
  destruct (fetchMetrics env p net s) as [body s1|msg s1]; simpl in Hfetch.
  - unfold bind. rewrite Hsend, IH. exact Hfetch.
  - exact Hfetch.
Qed.

Lemma empty_metrics_url_never_posts_witness :
  (forall net body s, sendToPushGateway plainEnv pushingWithoutURL net body s = Ret tt s)
  /\ (forall ticks s,
        posts (sent (stateOf (pushLoop plainEnv pushingWithoutURL ticks s)))
        = posts (sent s)).
Proof.
  exact (empty_metrics_url_never_posts plainEnv pushingWithoutURL eq_refl).
Defined.

(** The facade built with a push gateway URL and no local fetch URL does
    start its push loop. *)
Remark push_loop_started_without_metrics_url :
  New plainEnv [WithPushGatewayUrl "http://pgw:9091"] (startState [])
  = Ret pushingWithoutURL (setPushLoops [pushingWithoutURL] (startState [])).
Proof. vm_compute. reflexivity. Qed.

(** ** Basic-Auth credentials of the local fetch *)

Lemma digit_not_space n : Ascii.eqb (Base64.digit n) " " = false.
Proof.
  unfold Base64.digit.
  generalize (Z.to_nat n). intros k.
  do 64 (destruct k as [|k]; [reflexivity|]).
  reflexivity.
Qed.

Lemma encode_noSpace_bounded n : forall src,
  (length src <= n)%nat -> noSpace (Base64.encode src) = true.
Proof.
  induction n as [|n IH]; intros src Hlen.
  - destruct src; [reflexivity | simpl in Hlen; lia].
  - destruct src as [|a [|b [|c rest]]]; simpl;
      rewrite ?digit_not_space; simpl; try reflexivity.
    apply IH. simpl in Hlen. lia.
Qed.

Lemma EncodeToString_noSpace s : noSpace (Base64.EncodeToString s) = true.
Proof. unfold Base64.EncodeToString. eapply encode_noSpace_bounded. reflexivity. Qed.

Lemma prefix_cons a s1 b s2 :
  String.prefix (String a s1) (String b s2) = true ->
  a = b /\ String.prefix s1 s2 = true.
Proof. simpl. destruct (ascii_dec a b); [auto | discriminate]. Qed.

Lemma noSpace_not_Basic h : noSpace h = true -> String.prefix "Basic " h = false.
Proof.
  intros H. destruct (String.prefix "Basic " h) eqn:Hp; [|reflexivity].
  exfalso.
  do 6 (destruct h as [|? h]; [discriminate Hp|];
        apply prefix_cons in Hp; destruct Hp as [<- Hp]).
  simpl in H. discriminate H.
Qed.

Lemma encode_nonempty a src : Base64.encode (a :: src) <> "".
Proof. destruct src as [|b [|c rest]]; discriminate. Qed.

Lemma basicAuthOf_nonempty a : basicAuthOf a <> "".
Proof.
  unfold basicAuthOf, Base64.EncodeToString, Base64.bytes.
  destruct a as [u pw]; simpl. destruct u; simpl; apply encode_nonempty.
Qed.

Example EncodeToString_vectors :
  Base64.EncodeToString "admin:secret" = "YWRtaW46c2VjcmV0"
  /\ Base64.EncodeToString "a:b" = "YTpi"
  /\ Base64.EncodeToString "ab:b" = "YWI6Yg=="
  /\ Base64.EncodeToString "a" = "YQ==".
Proof. repeat split; reflexivity. Qed.

Lemma options_keep_basic_auth :
  (forall r, keepsBasicAuth (WithRouter r))
  /\ (forall r, keepsBasicAuth (WithExportRouter r))
  /\ (forall x, keepsBasicAuth (WithMetricsPath x))
  /\ (forall ms, keepsBasicAuth (WithMetrics ms))
  /\ (forall x, keepsBasicAuth (WithPushGatewayUrl x))
  /\ (forall a, keepsBasicAuth (WithExportAccounts a))
  /\ (forall t, keepsBasicAuth (WithPushInterval t))
  /\ (forall x, keepsBasicAuth (WithPushPushGatewayURL x))
  /\ (forall x, keepsBasicAuth (WithJobName x))
  /\ (forall l, keepsBasicAuth (WithLogger l))
  /\ (forall x, keepsBasicAuth (WithLoggerTag x))
  /\ (forall x, keepsBasicAuth (WithInstanceName x))
  /\ (forall x, keepsBasicAuth (WithMetricsURL x)).
Proof. repeat split; intros x []; reflexivity. Qed.

Lemma applyOptions_keeps opts : forall p,
  Forall keepsBasicAuth opts ->
  metricsBasicAuth (applyOptions opts p) = metricsBasicAuth p.
Proof.
  unfold applyOptions.
  induction opts as [|o opts IH]; intros p Hall; simpl; [reflexivity|].
  inversion Hall as [|? ? Ho Hrest]; subst.
  rewrite IH by assumption. apply Ho.
Qed.

Lemma setMetricsBasicAuth_fields auth p :
  metricsBasicAuth (setMetricsBasicAuth auth p) = auth
  /\ accounts (setMetricsBasicAuth auth p) = accounts p
  /\ exportRouter (setMetricsBasicAuth auth p) = exportRouter p
  /\ MetricsURL (setMetricsBasicAuth auth p) = MetricsURL p.
Proof. destruct p; repeat split; reflexivity. Qed.

(** What [New] returns, when it returns: the options applied to the
    defaults, with the credentials of the account the range yields first
    when both an export router and accounts are set. *)
Lemma New_returns env opts s p s' :
  New env opts s = Ret p s' ->
  let p0 := applyOptions opts (newPrometheus env) in
  (p = p0 /\ (exportRouter p0 = None \/ accounts p0 = None))
  \/ (exists e accts a,
        exportRouter p0 = Some e /\ accounts p0 = Some accts
        /\ rangeFirst (rangeSeed env) accts = Some a
        /\ p = setMetricsBasicAuth (basicAuthOf a) p0).
Proof.
  unfold New. set (p0 := applyOptions opts (newPrometheus env)).
  intros H. simpl.
  apply bind_Ret in H as ([] & s1 & _ & H).
  apply bind_Ret in H as (p1 & s2 & Hp & H).
  apply bind_Ret in H as ([] & s3 & _ & H).
  apply bind_Ret in H as ([] & s4 & _ & H).
  injection H as <- <-.
  destruct (exportRouter p0) as [e|] eqn:He.
  - destruct (accounts p0) as [accts|] eqn:Ha.
    + apply bind_Ret in Hp as ([] & s5 & Hb & Hp).
      apply bind_Ret in Hp as ([] & s6 & _ & Hp).
      injection Hp as <- <-.
      destruct (rangeFirst (rangeSeed env) accts) as [a|] eqn:Hr.
      * right. exists e, accts, a. repeat split; first [assumption | reflexivity].
      * exfalso. destruct accts as [|a accts]; [discriminate Hb|].
        unfold rangeFirst in Hr. apply lookup_ge_None in Hr.
        pose proof (Nat.mod_upper_bound (rangeSeed env) (length (a :: accts))) as Hlt.
        simpl in Hr, Hlt. lia.
    + apply bind_Ret in Hp as ([] & s5 & _ & Hp).
      injection Hp as <- <-. left. auto.
  - injection Hp as <- <-. left. auto.
Qed.

Lemma fetchRequest_authorization env p s req s' :
  fetchRequest env p s = Ret (Some req) s' ->
  hAuthorization req =
    if String.eqb (metricsBasicAuth p) "" then None else Some (metricsBasicAuth p).
Proof.
  unfold fetchRequest, NewRequest.
  destruct (String.eqb _ _), (urlParses env _); simpl; try discriminate;
    intros [= <- _]; reflexivity.
Qed.

(** C10: for a facade built by [New] from options that do not touch the
    unexported credentials field, an Authorization header on the request of
    the local fetch is the base64 encoding of "username:password" of one of
    the configured accounts, and does not start with "Basic "; and when an
    export router and accounts are configured, the local fetch does carry
    that header. *)
Theorem fetch_authorization_is_bare_base64 :
  forall (env : Env) (opts : list Option) (s s' : State) (p : Prometheus),
    Forall keepsBasicAuth opts ->
    New env opts s = Ret p s' ->
    (forall req s1 s2 h,
        fetchRequest env p s1 = Ret (Some req) s2 ->
        hAuthorization req = Some h ->
        exists accts a,
          accounts p = Some accts /\ a ∈ accts
          /\ h = Base64.EncodeToString (a.1 +:+ ":" +:+ a.2)
          /\ String.prefix "Basic " h = false)
    /\ (forall e accts req s1 s2,
          exportRouter p = Some e -> accounts p = Some accts ->
          fetchRequest env p s1 = Ret (Some req) s2 ->
          exists a,
            a ∈ accts
            /\ hAuthorization req = Some (Base64.EncodeToString (a.1 +:+ ":" +:+ a.2))).
Proof.
  intros env opts s s' p Hkeep Hnew.
  pose proof (applyOptions_keeps opts (newPrometheus env) Hkeep) as Hauth0.
  simpl in Hauth0.
  destruct (New_returns _ _ _ _ _ Hnew) as [[-> Hnone] | (e & accts & a & He & Ha & Hr & ->)].
  - split.
    + intros req s1 s2 h Hreq Hh.
      rewrite (fetchRequest_authorization _ _ _ _ _ Hreq), Hauth0 in Hh.
      discriminate Hh.
    + intros e accts req s1 s2 He Ha _.
      destruct Hnone as [Hn|Hn]; congruence.
  - destruct (setMetricsBasicAuth_fields (basicAuthOf a)
                (applyOptions opts (newPrometheus env))) as (Hm & Hacc & Hexp & _).
    assert (Hin : a ∈ accts).
    { unfold rangeFirst in Hr. eapply list_elem_of_lookup_2; exact Hr. }
    assert (Hne : String.eqb (basicAuthOf a) "" = false).
    { apply String.eqb_neq, basicAuthOf_nonempty. }
    split.
    + intros req s1 s2 h Hreq Hh.
      rewrite (fetchRequest_authorization _ _ _ _ _ Hreq), Hm, Hne in Hh.
      injection Hh as <-.
      exists accts, a. rewrite Hacc. repeat split; try assumption.
      apply noSpace_not_Basic, EncodeToString_noSpace.
    + intros e' accts' req s1 s2 _ Ha' Hreq.
      rewrite Hacc, Ha in Ha'. injection Ha' as <-.
      exists a. split; [assumption|].
      rewrite (fetchRequest_authorization _ _ _ _ _ Hreq), Hm, Hne. reflexivity.
Qed.

Lemma exporting_keeps_basic_auth : Forall keepsBasicAuth exporting.
Proof.
  destruct options_keep_basic_auth
    as (_ & Her & _ & _ & _ & Hea & _ & _ & _ & _ & _ & _ & Hurl).
  repeat constructor; auto.
Defined.

Lemma fetch_authorization_is_bare_base64_witness :
  exists p s' req,
    New plainEnv exporting (startState []) = Ret p s'
    /\ fetchRequest plainEnv p s' = Ret (Some req) s'
    /\ hAuthorization req = Some "YWRtaW46c2VjcmV0"
    /\ (exists a, a ∈ [("admin", "secret")]
                  /\ hAuthorization req
                     = Some (Base64.EncodeToString (a.1 +:+ ":" +:+ a.2))).
Proof.
  eexists; eexists; eexists.
  split; [reflexivity|]. split; [reflexivity|]. split; [reflexivity|].
  exact (proj2 (fetch_authorization_is_bare_base64 plainEnv exporting
                  (startState []) _ _ exporting_keeps_basic_auth eq_refl)
           _ _ _ (startState []) _ eq_refl eq_refl eq_refl).
Defined.

(** ** Registration *)

Lemma logged_setRegistry r s : logged (setRegistry r s) = logged s.
Proof. destruct s; reflexivity. Qed.

Lemma logged_setLogged l s : logged (setLogged l s) = l.
Proof. destruct s; reflexivity. Qed.

Lemma heap_setRegistry r s : heap (setRegistry r s) = heap s.
Proof. destruct s; reflexivity. Qed.

Lemma heap_setLogged l s : heap (setLogged l s) = heap s.
Proof. destruct s; reflexivity. Qed.

Lemma registry_setRegistry r s : registry (setRegistry r s) = r.
Proof. destruct s; reflexivity. Qed.

Lemma registry_setLogged l s : registry (setLogged l s) = registry s.
Proof. destruct s; reflexivity. Qed.

Lemma registry_setHeap hp n s : registry (setHeap hp n s) = registry s.
Proof. destruct s; reflexivity. Qed.


Lemma Metric_Collector_frame m jobName s c s1 :
  Metric_Collector m jobName s = Ret c s1 ->
  logged s1 = logged s /\ registry s1 = registry s
  /\ (forall x, x <> m -> heap s1 !! x = heap s !! x).
Proof.
  unfold Metric_Collector.
  destruct (heap s !! m) as [mt|]; [|discriminate].
  destruct (once mt); intros [= <- <-]; [auto|].
  rewrite logged_setHeap, registry_setHeap, heap_setHeap.
  repeat split. intros x Hx. apply list_lookup_insert_ne. congruence.
Qed.




(** One round of the loop of [registerMetrics]: the collector is obtained
    and handed to the registry, which either refuses it, and the error is
    logged, or takes it. *)
Lemma registerEach_cons env p m ms s s' :
  registerEach env p (m :: ms) s = Ret tt s' ->
  exists c s1 s3,
    Metric_Collector m (jobName p) s = Ret (Some c) s1
    /\ registerEach env p ms s3 = Ret tt s'
    /\ heap s3 = heap s1
    /\ ((exists e, logged s3 = logged s
                     ++ [{| sink := Logger p; tag := LoggerTag p;
                            err := RegistrationError e |}]
                   /\ registry s3 = registry s)
        \/ (logged s3 = logged s /\ registry s3 = registry s ++ [c]
            /\ existsb (fun c' => String.eqb (fqName c') (fqName c)) (registry s)
               = false)).
Proof.
  simpl. intros H.
  apply bind_Ret in H as (c & s1 & Hc & H).
  apply bind_Ret in H as (e & s2 & Hreg & H).
  apply bind_Ret in H as ([] & s3 & Hlog & H).
  destruct (Metric_Collector_frame _ _ _ _ _ Hc) as (Hl1 & Hr1 & _).
  unfold Register in Hreg. destruct c as [c|]; [|discriminate Hreg].
  exists c, s1, s3. split; [exact Hc|]. split; [exact H|].
  destruct (negb _).
  - injection Hreg as <- <-. injection Hlog as <-.
    rewrite heap_setLogged, logged_setLogged, registry_setLogged, Hl1, Hr1.
    split; [reflexivity|]. left. eauto.
  - rewrite Hr1 in Hreg.
    destruct (existsb _ (registry s)) eqn:Hex.
    + injection Hreg as <- <-. injection Hlog as <-.
      rewrite heap_setLogged, logged_setLogged, registry_setLogged, Hl1, Hr1.
      split; [reflexivity|]. left. eauto.
    + injection Hreg as <- <-. injection Hlog as <-.
      rewrite heap_setRegistry, logged_setRegistry, registry_setRegistry, Hl1.
      split; [reflexivity|]. right. auto.
Qed.









(** What registration does with two definitions of one name: it returns,
    the second registration is refused and logged, and the two structs hold
    two different collector objects. *)
Remark duplicate_name_example :
  let r := registerMetrics plainEnv twoMetrics (startState slowTwice) in
  returned r = true
  /\ (err <$> logged (stateOf r))
     = [RegistrationError (DuplicateRegistration "gin_slow_request_total")]
  /\ (cid <$> registry (stateOf r)) = [0%nat]
  /\ ((fun m => cid <$> collector m) <$> heap (stateOf r)) = [Some 0%nat; Some 1%nat].
Proof. vm_compute. repeat split; reflexivity. Qed.

(** ** Metric.Collector under concurrent callers *)

Module ConcurrentFacts.
Import Concurrent.

Lemma init_Inv m next jobNames : Inv (init m next jobNames).
Proof.
  constructor.
  - intros i t. simpl. rewrite list_lookup_fmap.
    destruct (jobNames !! i); simpl; [|discriminate].
    intros [= <-]. simpl. split; [discriminate | exact I].
  - discriminate.
  - left. reflexivity.
Qed.

(** The position of another caller stays justified when the shared state
    changes only in what a caller outside the critical section cannot
    observe to change. *)
Lemma local_frame st st' j l :
  local st j l ->
  (inCritical l = true ->
     mutex st' = mutex st /\ metric st' = metric st
     /\ constructions st' = constructions st) ->
  (once (metric st) = true ->
     once (metric st') = true /\ collector (metric st') = collector (metric st)) ->
  local st' j l.
Proof.
  unfold local. intros [Hmx Hl] Hcrit Hdone.
  destruct l; simpl in *;
    try (destruct (Hcrit eq_refl) as (Hm' & Hmt' & Hc');
         rewrite ?Hm', ?Hmt', ?Hc'; (split; [exact Hmx | exact Hl]); fail);
    (split; [intros [=]|]); try exact I.
  - apply Hdone; exact Hl.
  - destruct Hl as [Ho ->]. destruct (Hdone Ho) as [Ho' Hc'].
    split; [exact Ho' | symmetry; exact Hc'].
Qed.

Lemma holder_unique st i j t tj :
  Inv st -> threads st !! i = Some t -> threads st !! j = Some tj ->
  inCritical (at_ t) = true -> inCritical (at_ tj) = true -> i = j.
Proof.
  intros [Hl _ _] Hi Hj Hci Hcj.
  pose proof (proj1 (Hl _ _ Hi) Hci) as H1.
  pose proof (proj1 (Hl _ _ Hj) Hcj) as H2.
  congruence.
Qed.

(** The invariant after caller [i] moved to [l'], the shared fields being
    those of [sh]. *)
Lemma Inv_goto st sh i t l' :
  Inv st -> threads st !! i = Some t -> threads sh = threads st ->
  local sh i l' ->
  (forall j tj, j <> i -> threads st !! j = Some tj -> local sh j (at_ tj)) ->
  (forall j, mutex sh = Some j ->
             (j = i /\ inCritical l' = true) \/ (j <> i /\ mutex st = Some j)) ->
  (constructions sh = 0%nat
   \/ (constructions sh = 1%nat
       /\ (once (metric sh) = true \/ l' = AtStore
           \/ exists j tj, j <> i /\ threads st !! j = Some tj /\ at_ tj = AtStore))) ->
  Inv (goto i t l' sh).
Proof.
  intros [Hl Hm Hn] Ht Hth Hself Hothers Hmutex Hcount.
  assert (Hlen : (i < length (threads st))%nat)
    by (eapply lookup_lt_Some; eassumption).
  constructor; simpl; rewrite Hth.
  - intros j tj Hj.
    apply list_lookup_insert_Some in Hj as [(<- & <- & _) | (Hne & Hj)].
    + exact Hself.
    + apply (Hothers j tj); [congruence | exact Hj].
  - intros j Hj. destruct (Hmutex j Hj) as [[-> Hcr] | [Hne Hold]].
    + eexists. rewrite list_lookup_insert_eq by exact Hlen.
      split; [reflexivity | exact Hcr].
    + destruct (Hm j Hold) as (tj & Htj & Hcr). exists tj.
      rewrite list_lookup_insert_ne by congruence. auto.
  - destruct Hcount as [H0 | [H1 [Hdone | [-> | (j & tj & Hne & Hj & Hat)]]]];
      [left; exact H0 | right; split; [exact H1 | left; exact Hdone] | |].
    + right. split; [exact H1|]. right. exists i. eexists.
      rewrite list_lookup_insert_eq by exact Hlen. split; reflexivity.
    + right. split; [exact H1|]. right. exists j, tj.
      rewrite list_lookup_insert_ne by congruence. auto.
Qed.

(** Another caller at the store would hold the mutex too. *)
Lemma count_others st i t :
  Inv st -> threads st !! i = Some t -> at_ t <> AtStore ->
  constructions st = 0%nat
  \/ (constructions st = 1%nat
      /\ (once (metric st) = true
          \/ exists j tj, j <> i /\ threads st !! j = Some tj /\ at_ tj = AtStore)).
Proof.
  intros [_ _ Hn] Ht Hat.
  destruct Hn as [H0 | [H1 [Hd | (j & tj & Hj & Hs)]]]; auto.
  right. split; [exact H1|]. right. exists j, tj. repeat split; auto.
  intros ->. rewrite Ht in Hj. injection Hj as <-. contradiction.
Qed.

Lemma step_Inv i st st' : Inv st -> step i st = Some st' -> Inv st'.
Proof.
  intros HI Hstep. pose proof HI as [Hl Hm Hn]. unfold step in Hstep.
  destruct (threads st !! i) as [t|] eqn:Ht; [|discriminate].
  destruct (Hl i t Ht) as [Hmi Hli].
  assert (Hother : forall j tj, j <> i -> threads st !! j = Some tj ->
                                inCritical (at_ t) = true ->
                                inCritical (at_ tj) = true -> False).
  { intros j tj Hne Hj Hci Hcj. apply Hne. symmetry.
    eapply (holder_unique st i j); eassumption. }
  assert (Hcount : at_ t <> AtStore ->
            constructions st = 0%nat
            \/ (constructions st = 1%nat
                /\ (once (metric st) = true
                    \/ exists j tj, j <> i /\ threads st !! j = Some tj
                                     /\ at_ tj = AtStore)))
    by (apply count_others; assumption).
  assert (Hfree : inCritical (at_ t) = false -> mutex st <> Some i).
  { intros Hnc Hmx. destruct (Hm i Hmx) as (t' & Ht' & Hcr).
    rewrite Ht in Ht'. injection Ht' as <-. congruence. }
  assert (Hzero : at_ t = AtConstruct -> constructions st = 0%nat).
  { intros Hc.
    destruct (Hcount ltac:(rewrite Hc; discriminate))
      as [H0 | [H1 [Hd | (j & tj & Hne & Hj & Hs)]]]; [exact H0 | |].
    - rewrite Hc in Hli. simpl in Hli. congruence.
    - exfalso. apply (Hother j tj Hne Hj);
        [rewrite Hc; reflexivity | rewrite Hs; reflexivity]. }
  destruct (at_ t) eqn:Hat; simpl in Hmi, Hli, Hother, Hfree;
    repeat match type of Hstep with
           | (if ?b then _ else _) = _ => destruct b eqn:Ho
           | match ?o with Some _ => _ | None => _ end = _ => destruct o eqn:Hmx
           end;
    try discriminate Hstep; injection Hstep as <-;
    (apply (Inv_goto st); [exact HI | exact Ht | reflexivity | | | |]); simpl.
  (* the caller itself *)
  all: try (split; [intros Hcr; first [discriminate Hcr | simpl; auto]
                   | simpl; auto]; fail).
  (* the other callers *)
  all: try (intros j tj Hne Hj;
            apply (local_frame st); [exact (Hl j tj Hj) | |]; simpl;
            [ intros Hcr; first [ exfalso; exact (Hother j tj Hne Hj eq_refl Hcr)
                                | pose proof (proj1 (Hl j tj Hj) Hcr); congruence
                                | auto ]
            | intros Hd; first [congruence | auto] ]; fail).
  (* the mutex *)
  all: try (intros j Hj; destruct (decide (j = i)) as [->|Hne];
            [ first [ left; split; reflexivity
                    | exfalso; apply Hfree; [reflexivity | exact Hj] ]
            | right; split; [exact Hne | first [exact Hj | congruence]] ]; fail).
  (* the count *)
  all: try (intros j [=]; fail).
  all: try (destruct (Hcount ltac:(discriminate)) as [H0 | [H1 [Hd | He]]];
            [auto | first [discriminate Hd | rewrite ?Ho; auto] | auto 7]; fail).
  all: try (right; split; [apply Hli | left; reflexivity]; fail).
Qed.

Lemma run_Inv schedule : forall st, Inv st -> Inv (run schedule st).
Proof.
  unfold run. induction schedule as [|i schedule IH]; intros st HI; simpl;
    [exact HI|].
  apply IH. destruct (step i st) as [st'|] eqn:Hstep; simpl;
    [eapply step_Inv; eassumption | exact HI].
Qed.



Lemma returned_or_not (l : list Thread) :
  (forall i t, l !! i = Some t -> exists c, at_ t = Returned c)
  \/ (exists i t, l !! i = Some t /\ forall c, at_ t <> Returned c).
Proof.
  induction l as [|t l [IH | (i & t' & Hi & Hnr)]].
  - left. intros i t [=].
  - destruct (at_ t) eqn:Hat;
      try (right; exists 0%nat, t; split; [reflexivity|];
           rewrite Hat; discriminate).
    left. intros [|i] t' Hi; simpl in Hi; [injection Hi as <-; eauto | eauto].
  - right. exists (S i), t'. auto.
Qed.

(** The mutex is never held forever: a state in which some caller has not
    returned has a caller that can move. *)
Lemma progress st :
  Inv st -> ~ finished st -> exists i st', step i st = Some st'.
Proof.
  intros [Hl Hm _] Hnot.
  destruct (mutex st) as [h|] eqn:Hmx.
  - destruct (Hm h eq_refl) as (t & Ht & Hcr). exists h.
    unfold step. rewrite Ht.
    destruct (at_ t); try discriminate Hcr; simpl;
      try destruct (once (metric st)); eauto.
  - destruct (returned_or_not (threads st)) as [Hall | (i & t & Ht & Hnr)];
      [contradiction|].
    exists i. unfold step. rewrite Ht, Hmx.
    destruct (at_ t) eqn:Hat; try destruct (once (metric st)); eauto;
      exfalso; eapply Hnr; reflexivity.
Qed.






(** Three callers of a fresh slow-request counter, interleaved: one
    construction, and the three hold the collector of identity 0. *)
Example three_callers :
  let st := run [0; 1; 2; 1; 0; 2; 1; 1; 0; 2; 1; 1; 1; 0; 0; 0; 2; 2; 2; 0; 2]%nat
              (init (SlowRequestTotal Second) 0 ["gin"; "api"; "gin"]) in
  constructions st = 1%nat
  /\ result st 0 = result st 1 /\ result st 1 = result st 2
  /\ (exists c, result st 0 = Some (Some c) /\ cid c = 0%nat
                /\ Subsystem (opts c) = "api").
Proof. vm_compute. repeat split. eexists. repeat split. Qed.

End ConcurrentFacts.


(** * Further properties of the package *)

(** ** The collector factory *)


(** ** Metric.Collector, called again *)

(** Once Collector has returned for a definition, every later call returns
    the same collector and changes nothing, whatever job name it is given:
    the job name of a later call is ignored. *)
Theorem Collector_ignores_later_job_names :
  forall (m : nat) (jobName : string) (s s1 : State) (c : option Collector),
    Metric_Collector m jobName s = Ret c s1 ->
    forall jobName', Metric_Collector m jobName' s1 = Ret c s1.
Proof.
  intros m jobName s s1 c Hc jobName'.
  destruct (heap s !! m) as [mt|] eqn:Hm.
  - destruct (Metric_Collector_heap _ _ _ _ _ _ Hm Hc) as (mt' & Hm' & <- & Ho & _).
    apply Metric_Collector_cached; assumption.
  - unfold Metric_Collector in Hc. rewrite Hm in Hc. discriminate Hc.
Qed.

Lemma Collector_ignores_later_job_names_witness :
  let s1 := stateOf (Metric_Collector 0 "gin" (startState [SlowRequestTotal Second])) in
  Metric_Collector 0 "api" s1
  = Ret (NewMetric (SlowRequestTotal Second) "gin" 0) s1.
Proof.
  exact (Collector_ignores_later_job_names 0 "gin"
           (startState [SlowRequestTotal Second]) _ _ eq_refl "api").
Defined.

(** ** registerMetrics *)

Lemma constructed_step hp m jobName s c s1 x :
  heap s = hp -> constructed hp x ->
  Metric_Collector m jobName s = Ret c s1 ->
  constructed (heap s1) x.
Proof.
  intros <- (mt & cx & Hx & Ho & Hcx) Hc.
  destruct (decide (x = m)) as [->|Hne].
  - rewrite (Metric_Collector_cached _ _ _ _ Hx Ho) in Hc.
    injection Hc as <- <-. exists mt, cx. auto.
  - destruct (Metric_Collector_frame _ _ _ _ _ Hc) as (_ & _ & Hframe).
    exists mt, cx. rewrite Hframe by assumption. auto.
Qed.

Lemma registerEach_keeps_constructed env p ms : forall s s' x,
  registerEach env p ms s = Ret tt s' ->
  constructed (heap s) x -> constructed (heap s') x.
Proof.
  induction ms as [|m ms IH]; intros s s' x H Hx.
  - injection H as <-. exact Hx.
  - destruct (registerEach_cons _ _ _ _ _ _ H)
      as (c & s1 & s3 & Hc & Hrest & Hheap & _).
    apply (IH s3 s' x Hrest). rewrite Hheap.
    eapply constructed_step; [reflexivity | exact Hx | exact Hc].
Qed.

(** When registerMetrics returns, every metric of the facade has had its
    collector built, and the collector is not nil: no update function is
    later handed a nil collector. *)
Theorem registered_metrics_are_constructed :
  forall (env : Env) (p : Prometheus) (s s' : State),
    registerMetrics env p s = Ret tt s' ->
    forall m, m ∈ metrics p -> constructed (heap s') m.
Proof.
  intros env p s s'. unfold registerMetrics.
  generalize (metrics p). intros ms. revert s.
  induction ms as [|m0 ms IH]; intros s H m Hin; [set_solver|].
  destruct (registerEach_cons _ _ _ _ _ _ H)
    as (c & s1 & s3 & Hc & Hrest & Hheap & _).
  apply elem_of_cons in Hin as [-> | Hin].
  - apply (registerEach_keeps_constructed env p ms s3 s' m0 Hrest).
    rewrite Hheap.
    destruct (heap s !! m0) as [mt|] eqn:Hm;
      [|unfold Metric_Collector in Hc; rewrite Hm in Hc; discriminate Hc].
    destruct (Metric_Collector_heap _ _ _ _ _ _ Hm Hc) as (mt' & Hm' & Hcol & Ho & _).
    exists mt', c. auto.
  - exact (IH s3 Hrest m Hin).
Qed.

Lemma registered_metrics_are_constructed_witness :
  constructed (heap (registered [ResponseSize; SlowRequestTotal 0])) 1.
Proof.
  apply (registered_metrics_are_constructed plainEnv twoMetrics
           (startState [ResponseSize; SlowRequestTotal 0]) _ eq_refl).
  unfold twoMetrics. simpl. set_solver.
Defined.

(** Every metric of the facade is accounted for: when registerMetrics
    returns, each metric was either taken by the registry or reported to the
    logger, one entry per metric, and nothing else was logged or registered. *)
Theorem each_metric_registered_or_reported :
  forall (env : Env) (p : Prometheus) (s s' : State),
    registerMetrics env p s = Ret tt s' ->
    exists newLog newReg,
      logged s' = logged s ++ newLog
      /\ registry s' = registry s ++ newReg
      /\ (length newLog + length newReg = length (metrics p))%nat
      /\ Forall (fun e => sink e = Logger p /\ tag e = LoggerTag p
                          /\ exists r, err e = RegistrationError r) newLog.
Proof.
  intros env p s s'. unfold registerMetrics.
  generalize (metrics p). intros ms. revert s.
  induction ms as [|m ms IH]; intros s H.
  - injection H as <-. exists [], []. rewrite !app_nil_r. auto.
  - destruct (registerEach_cons _ _ _ _ _ _ H)
      as (c & s1 & s3 & _ & Hrest & _ & Hcase).
    destruct (IH s3 Hrest) as (newLog & newReg & Hl & Hr & Hlen & Hall).
    destruct Hcase as [(e & Hl3 & Hr3) | (Hl3 & Hr3 & _)].
    + eexists (_ :: newLog), newReg.
      rewrite Hl, Hr, Hl3, Hr3, <- app_assoc. simpl.
      repeat split; try reflexivity; [lia|].
      constructor; [simpl; eauto | exact Hall].
    + exists newLog, (c :: newReg).
      rewrite Hl, Hr, Hl3, Hr3, <- app_assoc. simpl.
      repeat split; try reflexivity; [lia | exact Hall].
Qed.

Lemma each_metric_registered_or_reported_witness :
  exists newLog newReg,
    logged (registered slowTwice) = logged (startState slowTwice) ++ newLog
    /\ registry (registered slowTwice) = registry (startState slowTwice) ++ newReg
    /\ (length newLog + length newReg = length (metrics twoMetrics))%nat
    /\ Forall (fun e => sink e = Logger twoMetrics /\ tag e = LoggerTag twoMetrics
                        /\ exists r, err e = RegistrationError r) newLog.
Proof.
  exact (each_metric_registered_or_reported plainEnv twoMetrics
           (startState slowTwice) _ eq_refl).
Defined.

Lemma registerEach_app env p pre post s :
  registerEach env p (pre ++ post) s =
    match registerEach env p pre s with
    | Ret _ s1 => registerEach env p post s1
    | Panicked msg s1 => Panicked msg s1
    end.
Proof.
  revert s. induction pre as [|m pre IH]; intros s; [reflexivity|].
  simpl. unfold bind.
  destruct (Metric_Collector m (jobName p) s) as [c s1|]; [|reflexivity].
  destruct (Register env c s1) as [e s2|]; [|reflexivity].
  destruct (match e with Some e0 => _ | None => _ end s2) as [[] s3|];
    [apply IH | reflexivity].
Qed.

(** A definition of unrecognized kind stops registration: registerMetrics
    panics when it reaches the first such metric that was not constructed
    before.  The metrics before it have been handled; for this one nothing
    is registered or logged, and the metrics after it are not touched. *)
Theorem unknown_kind_stops_registration :
  forall (env : Env) (p : Prometheus) (s s1 : State)
         (pre post : list nat) (m : nat) (mt : Metric),
    metrics p = pre ++ m :: post ->
    registerEach env p pre s = Ret tt s1 ->
    heap s1 !! m = Some mt -> once mt = false ->
    recognized (Type_ mt) = false ->
    exists s2,
      registerMetrics env p s = Panicked nilDereference s2
      /\ registry s2 = registry s1 /\ logged s2 = logged s1
      /\ (forall x, x <> m -> heap s2 !! x = heap s1 !! x).
Proof.
  intros env p s s1 pre post m mt Hms Hpre Hm Ho Hrec.
  unfold registerMetrics. rewrite Hms, registerEach_app, Hpre. simpl.
  unfold bind. rewrite (Metric_Collector_fresh _ _ _ _ Hm Ho).
  rewrite (NewMetric_unrecognized _ _ _ Hrec). simpl.
  eexists. split; [reflexivity|].
  rewrite registry_setHeap, logged_setHeap, heap_setHeap.
  repeat split. intros x Hx. apply list_lookup_insert_ne. congruence.
Qed.

Lemma unknown_kind_stops_registration_witness :
  exists s2,
    registerMetrics plainEnv twoMetrics (startState [SlowRequestTotal 0; unknownKind])
    = Panicked nilDereference s2
    /\ (cid <$> registry s2) = [0%nat] /\ logged s2 = [].
Proof.
  destruct (unknown_kind_stops_registration plainEnv twoMetrics
              (startState [SlowRequestTotal 0; unknownKind]) _
              [0%nat] [] 1%nat unknownKind eq_refl eq_refl eq_refl eq_refl eq_refl)
    as (s2 & H & Hr & Hl & _).
  exists s2. split; [exact H|]. rewrite Hr, Hl. split; reflexivity.
Defined.

(** ** What the interceptor measures *)

Lemma runHandlers_Req hs : forall c w, Req (runHandlers hs c w).1 = Req c.
Proof.
  induction hs as [|h hs IH]; intros c w; simpl; [reflexivity|].
  destruct (h (Req c) (Writer c) w) as [wr w']. rewrite IH. reflexivity.
Qed.

Lemma Next_runs_handlers c s :
  Next c s =
    Ret (runHandlers (handlersFrom (setIndex (index c + 1) c))
           (setIndex (index c + 1) c) (world s)).1
        (setWorld (runHandlers (handlersFrom (setIndex (index c + 1) c))
                     (setIndex (index c + 1) c) (world s)).2 s).
Proof. unfold Next. destruct (runHandlers _ _ _). reflexivity. Qed.

Lemma Metric_Exec_run m mt start c s :
  heap s !! m = Some mt ->
  Metric_Exec m start c s =
    match ExecFn mt (collector mt) start c (world s) with
    | Ret _ w => Ret tt (setWorld w (setExecd (execd s ++ [m]) s))
    | Panicked msg w => Panicked msg (setWorld w (setExecd (execd s ++ [m]) s))
    end.
Proof.
  intros Hm. unfold Metric_Exec. rewrite Hm, world_setExecd. reflexivity.
Qed.

(** The slow-request counter counts the time the wrapped handlers took: on
    an instrumented request, the start time is read before the handlers
    behind the middleware run and the counter is updated after them, so it
    is incremented exactly when the clock advanced by more than the
    threshold while they ran. *)
Theorem slow_counter_measures_the_handlers :
  forall (p : Prometheus) (ctx : Context) (u : URL) (s : State)
         (m : nat) (T : Z) (c : Collector),
    ReqURL (Req ctx) = Some u -> Path u <> metricsPath p ->
    metrics p = [m] ->
    heap s !! m = Some (setCollector (Some c) (SlowRequestTotal T)) ->
    kind c = Counter ->
    let entry := setIndex (index ctx + 1) ctx in
    let after := runHandlers (handlersFrom entry) entry (world s) in
    exists s',
      HandlerFunc p ctx s = Ret after.1 s'
      /\ world s' = (if T <? Since after.2 (clock (world s))
                     then record c (Inc []) after.2
                     else after.2).
Proof.
  intros p ctx u s m T c Hu Hne Hms Hm Hk entry after.
  rewrite (HandlerFunc_instrumented _ _ _ _ Hu Hne), Next_runs_handlers, Hms.
  fold entry. fold after. simpl. unfold bind.
  rewrite (Metric_Exec_run m _ _ _ _ ltac:(rewrite heap_setWorld; exact Hm)).
  simpl. rewrite world_setWorld. unfold assertCounter. rewrite Hk.
  destruct (T <? Since after.2 (clock (world s)));
    eexists; (split; [reflexivity|]); apply world_setWorld.
Qed.

Lemma slow_counter_measures_the_handlers_witness :
  let s := registered [SlowRequestTotal 3; SlowRequestTotal 9] in
  let p := applyOptions [WithMetrics [0%nat]] (newPrometheus plainEnv) in
  exists s' c,
    HandlerFunc p (contextFor "/hello" [okHandler 5]) s = Ret c s'
    /\ clock (world s') = 5
    /\ (length <$> values (world s') !! 0%nat) = Some 1%nat.
Proof.
  destruct (slow_counter_measures_the_handlers
              (applyOptions [WithMetrics [0%nat]] (newPrometheus plainEnv))
              (contextFor "/hello" [okHandler 5]) {| Path := "/hello" |}
              (registered [SlowRequestTotal 3; SlowRequestTotal 9]) 0%nat 3
              {| cid := 0; kind := Counter;
                 opts := mkOpts (SlowRequestTotal 3) "gin"; labelNames := [] |}
              eq_refl ltac:(discriminate) eq_refl eq_refl eq_refl)
    as (s' & H & Hw).
  exists s'. eexists. split; [exact H|]. rewrite Hw. split; reflexivity.
Defined.

(** The size summaries record the request as received and the response as
    the wrapped handlers left it: with the response-size and request-size
    metrics registered in that order, an instrumented request adds to the
    first the body size the response writer reports after the handlers ran,
    and to the second the approximate size of the request. *)
Theorem size_summaries_record_after_the_handlers :
  forall (p : Prometheus) (ctx : Context) (u : URL) (s : State)
         (a b : nat) (ca cb : Collector),
    ReqURL (Req ctx) = Some u -> Path u <> metricsPath p ->
    metrics p = [a; b] ->
    heap s !! a = Some (setCollector (Some ca) ResponseSize) ->
    heap s !! b = Some (setCollector (Some cb) RequestSize) ->
    kind ca = Summary -> kind cb = Summary ->
    let entry := setIndex (index ctx + 1) ctx in
    let after := runHandlers (handlersFrom entry) entry (world s) in
    exists s',
      HandlerFunc p ctx s = Ret after.1 s'
      /\ world s'
         = record cb (Observe [] (computeApproximateRequestSize (Req ctx)))
             (record ca (Observe [] (Size (Writer after.1))) after.2).
Proof.
  intros p ctx u s a b ca cb Hu Hne Hms Ha Hb Hka Hkb entry after.
  rewrite (HandlerFunc_instrumented _ _ _ _ Hu Hne), Next_runs_handlers, Hms.
  fold entry. fold after. simpl. unfold bind.
  rewrite (Metric_Exec_run a _ _ _ _ ltac:(rewrite heap_setWorld; exact Ha)).
  simpl. rewrite world_setWorld. unfold assertSummary. rewrite Hka.
  rewrite (Metric_Exec_run b _ _ _ _
             ltac:(rewrite heap_setWorld, heap_setExecd, heap_setWorld; exact Hb)).
  simpl. rewrite world_setWorld. unfold assertSummary. rewrite Hkb.
  eexists. split; [reflexivity|].
  rewrite world_setWorld. unfold after. rewrite runHandlers_Req. reflexivity.
Qed.

Lemma size_summaries_record_after_the_handlers_witness :
  let s := registered [ResponseSize; RequestSize] in
  exists s' c,
    HandlerFunc twoMetrics (contextFor "/hello" [okHandler 5]) s = Ret c s'
    /\ values (world s') !! 0%nat = Some [Observe [] 2]
    /\ values (world s') !! 1%nat = Some [Observe [] 18].
Proof.
  destruct (size_summaries_record_after_the_handlers twoMetrics
              (contextFor "/hello" [okHandler 5]) {| Path := "/hello" |}
              (registered [ResponseSize; RequestSize]) 0%nat 1%nat
              {| cid := 0; kind := Summary;
                 opts := mkOpts ResponseSize "gin"; labelNames := [] |}
              {| cid := 1; kind := Summary;
                 opts := mkOpts RequestSize "gin"; labelNames := [] |}
              eq_refl ltac:(discriminate) eq_refl eq_refl eq_refl eq_refl eq_refl)
    as (s' & H & Hw).
  exists s'. eexists. split; [exact H|]. rewrite Hw. split; reflexivity.
Defined.

(** ** The effects of New *)

Lemma Metric_Collector_others m jobName s c s1 :
  Metric_Collector m jobName s = Ret c s1 ->
  ginCalls s1 = ginCalls s /\ pushLoops s1 = pushLoops s.
Proof.
  unfold Metric_Collector. destruct (heap s !! m) as [mt|]; [|discriminate].
  destruct (once mt); intros [= <- <-]; [auto|]. destruct s; auto.
Qed.

Lemma Register_others env c s e s1 :
  Register env c s = Ret e s1 ->
  ginCalls s1 = ginCalls s /\ pushLoops s1 = pushLoops s.
Proof.
  unfold Register. destruct c as [c|]; [|discriminate].
  destruct (negb _); [intros [= <- <-]; auto|].
  destruct (existsb _ _); intros [= <- <-]; [auto|]. destruct s; auto.
Qed.

Lemma registerEach_others env p ms : forall s s',
  registerEach env p ms s = Ret tt s' ->
  ginCalls s' = ginCalls s /\ pushLoops s' = pushLoops s.
Proof.
  induction ms as [|m ms IH]; intros s s' H.
  - injection H as <-. auto.
  - simpl in H.
    apply bind_Ret in H as (c & s1 & Hc & H).
    apply bind_Ret in H as (e & s2 & Hreg & H).
    apply bind_Ret in H as ([] & s3 & Hlog & H).
    destruct (Metric_Collector_others _ _ _ _ _ Hc) as [Hg1 Hp1].
    destruct (Register_others _ _ _ _ _ Hreg) as [Hg2 Hp2].
    destruct (IH _ _ H) as [Hg Hp].
    assert (ginCalls s3 = ginCalls s2 /\ pushLoops s3 = pushLoops s2) as [Hg3 Hp3].
    { destruct e; injection Hlog as <-; [destruct s2|]; auto. }
    split; congruence.
Qed.

Lemma setMetricsBasicAuth_keeps auth p :
  router (setMetricsBasicAuth auth p) = router p
  /\ exportRouter (setMetricsBasicAuth auth p) = exportRouter p
  /\ accounts (setMetricsBasicAuth auth p) = accounts p
  /\ metricsPath (setMetricsBasicAuth auth p) = metricsPath p.
Proof. destruct p; repeat split; reflexivity. Qed.

Lemma New_effects env opts s p s' :
  New env opts s = Ret p s' ->
  ginCalls s' = ginCalls s
                ++ match router p with Some r => [Use r] | None => [] end
                ++ match exportRouter p with
                   | Some e => [GET e (metricsPath p) (accounts p)]
                   | None => []
                   end
  /\ pushLoops s' = pushLoops s
                    ++ (if String.eqb (PushGatewayURL p) "" then [] else [p])
  /\ (PushGatewayURL p <> "" -> 0 < PushInterval p).
Proof.
  unfold New. set (p0 := applyOptions opts (newPrometheus env)).
  intros H.
  apply bind_Ret in H as ([] & s1 & Huse & H).
  apply bind_Ret in H as (p1 & s2 & Hexp & H).
  apply bind_Ret in H as ([] & s3 & Hreg & H).
  apply bind_Ret in H as ([] & s4 & Hpush & H).
  injection H as <- <-.
  assert (Hs1 : ginCalls s1 = ginCalls s
                  ++ match router p0 with Some r => [Use r] | None => [] end
                /\ pushLoops s1 = pushLoops s).
  { destruct (router p0); injection Huse as <-;
      [destruct s; simpl; auto | rewrite app_nil_r; auto]. }
  assert (Hs2 : ginCalls s2 = ginCalls s1
                  ++ match exportRouter p0 with
                     | Some e => [GET e (metricsPath p0) (accounts p0)]
                     | None => []
                     end
                /\ pushLoops s2 = pushLoops s1
                /\ router p1 = router p0 /\ exportRouter p1 = exportRouter p0
                /\ accounts p1 = accounts p0 /\ metricsPath p1 = metricsPath p0).
  { destruct (exportRouter p0) as [e|] eqn:He.
    - destruct (accounts p0) as [accts|] eqn:Ha.
      + apply bind_Ret in Hexp as ([] & s5 & Hb & Hexp).
        apply bind_Ret in Hexp as ([] & s6 & Hget & Hexp).
        injection Hexp as <- <-.
        assert (s5 = s1) as ->.
        { unfold BasicAuth in Hb. destruct accts; [discriminate Hb|].
          destruct (existsb _ _); [discriminate Hb|]. injection Hb as <-.
          reflexivity. }
        unfold ginGET in Hget. destruct (routeAccepted env e _); [|discriminate Hget].
        injection Hget as <-.
        split; [destruct s1; reflexivity|]. split; [destruct s1; reflexivity|].
        destruct (rangeFirst _ _);
          [destruct (setMetricsBasicAuth_keeps (basicAuthOf p) p0) as (? & ? & ? & ?)|];
          repeat split; congruence.
      + apply bind_Ret in Hexp as ([] & s5 & Hget & Hexp).
        injection Hexp as <- <-.
        unfold ginGET in Hget. destruct (routeAccepted env e _); [|discriminate Hget].
        injection Hget as <-.
        split; [destruct s1; reflexivity|]. split; [destruct s1; reflexivity|].
        repeat split; congruence.
    - injection Hexp as <- <-. rewrite app_nil_r. repeat split; congruence. }
  destruct Hs1 as [Hg1 Hp1]. destruct Hs2 as (Hg2 & Hp2 & Hr & He & Ha & Hm).
  destruct (registerEach_others _ _ _ _ _ Hreg) as [Hg3 Hp3].
  rewrite Hr, He, Ha, Hm.
  destruct (String.eqb (PushGatewayURL p1) "") eqn:Hurl.
  - injection Hpush as <-. rewrite app_nil_r.
    split; [rewrite Hg3, Hg2, Hg1, <- app_assoc; reflexivity|].
    split; [congruence|].
    intros Hne. apply String.eqb_eq in Hurl. contradiction.
  - unfold startPush in Hpush.
    destruct (Z.leb_spec (PushInterval p1) 0) as [|Hpos]; [discriminate Hpush|].
    injection Hpush as <-.
    split; [destruct s3; simpl in *; rewrite Hg3, Hg2, Hg1, <- app_assoc; reflexivity|].
    split; [destruct s3; simpl in *; congruence|].
    intros _. exact Hpos.
Qed.

(** When New returns, it has installed the middleware on the router exactly
    when a router was given, and then registered the export route, at the
    export path and behind the configured accounts, exactly when an export
    router was given; it made no other call to an engine. *)
Theorem New_installs_middleware_and_route :
  forall (env : Env) (opts : list Option) (s s' : State) (p : Prometheus),
    New env opts s = Ret p s' ->
    ginCalls s' = ginCalls s
                  ++ match router p with Some r => [Use r] | None => [] end
                  ++ match exportRouter p with
                     | Some e => [GET e (metricsPath p) (accounts p)]
                     | None => []
                     end.
Proof.
  intros env opts s s' p H. exact (proj1 (New_effects _ _ _ _ _ H)).
Qed.

Lemma New_installs_middleware_and_route_witness :
  exists p s',
    New plainEnv (WithRouter 7 :: exporting) (startState []) = Ret p s'
    /\ ginCalls s' = [Use 7; GET 1 "metrics" (Some [("admin", "secret")])].
Proof.
  eexists; eexists. split; [reflexivity|].
  exact (New_installs_middleware_and_route plainEnv (WithRouter 7 :: exporting)
           (startState []) _ _ eq_refl).
Defined.

(** When New returns, it has started the push loop exactly when a push
    gateway URL is configured, for the facade it returns; and then the push
    interval is positive (a ticker with another interval panics). *)
Theorem New_starts_push_loop_iff_gateway :
  forall (env : Env) (opts : list Option) (s s' : State) (p : Prometheus),
    New env opts s = Ret p s' ->
    pushLoops s' = pushLoops s
                   ++ (if String.eqb (PushGatewayURL p) "" then [] else [p])
    /\ (PushGatewayURL p <> "" -> 0 < PushInterval p).
Proof.
  intros env opts s s' p H. exact (proj2 (New_effects _ _ _ _ _ H)).
Qed.

Lemma New_starts_push_loop_iff_gateway_witness :
  pushLoops (stateOf (New plainEnv [WithPushGatewayUrl "http://pgw:9091"]
                        (startState [])))
  = [pushingWithoutURL]
  /\ (PushGatewayURL pushingWithoutURL <> "" -> 0 < PushInterval pushingWithoutURL).
Proof.
  exact (New_starts_push_loop_iff_gateway plainEnv
           [WithPushGatewayUrl "http://pgw:9091"] (startState []) _ _ eq_refl).
Defined.

(** ** The options *)

Lemma toOption_metrics c p : metrics (toOption c p) = metrics p ++ metricsArg c.
Proof. destruct c, p; simpl; rewrite ?app_nil_r; reflexivity. Qed.

(** The metric list of the facade is made of the arguments of the
    WithMetrics calls, in the order of the calls, whatever other options are
    given between them: this is the order in which requests are dispatched. *)
Theorem metrics_follow_the_order_of_options :
  forall (calls : list OptionCall) (p : Prometheus),
    metrics (applyOptions (toOption <$> calls) p)
    = metrics p ++ concat (metricsArg <$> calls).
Proof.
  unfold applyOptions.
  induction calls as [|c calls IH]; intros p; simpl.
  - rewrite app_nil_r. reflexivity.
  - rewrite IH, toOption_metrics, <- app_assoc. reflexivity.
Qed.

Lemma toOption_gateway c p :
  PushGatewayURL (toOption c p) = default (PushGatewayURL p) (gatewayArg c).
Proof. destruct c, p; reflexivity. Qed.

Lemma default_last_cons {A} (d x : A) (l : list A) :
  default d (last (x :: l)) = default x (last l).
Proof. rewrite last_cons. destruct (last l); reflexivity. Qed.

(** WithPushGatewayUrl and WithPushPushGatewayURL set the same field: the
    push gateway URL of the facade is the argument of the last call of
    either, and the initial one when there is none. *)
Theorem last_gateway_option_wins :
  forall (calls : list OptionCall) (p : Prometheus),
    PushGatewayURL (applyOptions (toOption <$> calls) p)
    = default (PushGatewayURL p) (last (omap gatewayArg calls)).
Proof.
  unfold applyOptions.
  induction calls as [|c calls IH]; intros p; [reflexivity|].
  rewrite fmap_cons. cbn [fold_left]. rewrite IH, toOption_gateway.
  change (omap gatewayArg (c :: calls))
    with (match gatewayArg c with
          | Some y => y :: omap gatewayArg calls
          | None => omap gatewayArg calls
          end).
  generalize (omap gatewayArg calls). intros l.
  destruct (gatewayArg c) as [url|]; [|reflexivity].
  rewrite default_last_cons. reflexivity.
Qed.

(** ** A tick of the push loop *)

Lemma fetchRequest_parses env p s :
  urlParses env (MetricsURL p) = true ->
  fetchRequest env p s = Ret (Some (getRequestOf p)) s.
Proof.
  intros Hurl. unfold fetchRequest, NewRequest, getRequestOf. rewrite Hurl.
  destruct (String.eqb (metricsBasicAuth p) ""); reflexivity.
Qed.

Lemma fetchMetrics_answers env p net s body :
  urlParses env (MetricsURL p) = true ->
  doGet net (getRequestOf p) = DoResponse body ->
  fetchMetrics env p net s = Ret body (setSent (sent s ++ [getRequestOf p]) s).
Proof.
  intros Hurl Hget. unfold fetchMetrics, bind.
  rewrite (fetchRequest_parses _ _ _ Hurl). unfold send. rewrite Hget.
  reflexivity.
Qed.

Lemma sendToPushGateway_posts env p net body s :
  MetricsURL p <> "" ->
  urlParses env (GetPushGatewayURL p) = true ->
  sendToPushGateway env p net body s =
    Ret tt (match doPost net (postRequestOf p body) with
            | Some e => setLogged (logged s ++ [pushFailure p e])
                          (setSent (sent s ++ [postRequestOf p body]) s)
            | None => setSent (sent s ++ [postRequestOf p body]) s
            end).
Proof.
  intros Hne Hurl. unfold sendToPushGateway, NewRequest.
  apply String.eqb_neq in Hne. rewrite Hne, Hurl.
  unfold bind, send. change (Build_HttpRequest "POST" (GetPushGatewayURL p) None body)
    with (postRequestOf p body).
  destruct (doPost net (postRequestOf p body)); [|reflexivity].
  unfold logError. destruct s; reflexivity.
Qed.

(** On a tick on which the local endpoint answers, the loop fetches from the
    local metrics URL and then posts to the gateway, at
    <push URL>/metrics/job/<job name>/instance/<instance name>, exactly the
    body it fetched; a failure of the POST is logged under the facade's tag
    and the tick ends normally. *)
Theorem push_tick_forwards_the_snapshot :
  forall (env : Env) (p : Prometheus) (net : Net) (s : State) (body : string),
    MetricsURL p <> "" ->
    urlParses env (MetricsURL p) = true ->
    urlParses env (GetPushGatewayURL p) = true ->
    doGet net (getRequestOf p) = DoResponse body ->
    exists s',
      pushLoop env p [net] s = Ret tt s'
      /\ sent s' = sent s ++ [getRequestOf p; postRequestOf p body]
      /\ logged s' = logged s
                     ++ match doPost net (postRequestOf p body) with
                        | Some e => [pushFailure p e]
                        | None => []
                        end.
Proof.
  intros env p net s body Hne Hurl Hpush Hget. simpl. unfold bind.
  rewrite (fetchMetrics_answers _ _ _ _ _ Hurl Hget).
  rewrite (sendToPushGateway_posts _ _ _ _ _ Hne Hpush).
  eexists. split; [reflexivity|].
  destruct (doPost net _); destruct s; simpl; rewrite <- ?app_assoc, ?app_nil_r;
    split; reflexivity.
Qed.

Lemma push_tick_forwards_the_snapshot_witness :
  exists s',
    pushLoop plainEnv pushing [netUp] (startState []) = Ret tt s'
    /\ sent s' = [getRequestOf pushing; postRequestOf pushing "up 1"]
    /\ logged s' = [].
Proof.
  exact (push_tick_forwards_the_snapshot plainEnv pushing netUp (startState [])
           "up 1" ltac:(discriminate) eq_refl eq_refl eq_refl).
Defined.

(** A failed push does not stop the loop: as long as the local endpoint
    answers, the loop never panics, every tick is served and hands exactly
    one POST to the client, whatever the gateway answers. *)
Theorem push_loop_survives_push_failures :
  forall (env : Env) (p : Prometheus) (ticks : list Net) (s : State),
    MetricsURL p <> "" ->
    urlParses env (MetricsURL p) = true ->
    urlParses env (GetPushGatewayURL p) = true ->
    Forall (fun net => exists body, doGet net (getRequestOf p) = DoResponse body)
           ticks ->
    exists s',
      pushLoop env p ticks s = Ret tt s'
      /\ length (posts (sent s')) = (length (posts (sent s)) + length ticks)%nat
      /\ length (sent s') = (length (sent s) + 2 * length ticks)%nat.
Proof.
  intros env p ticks s Hne Hurl Hpush Hall. revert s.
  induction Hall as [|net ticks [body Hget] _ IH]; intros s.
  - exists s. split; [reflexivity|]. simpl. lia.
  - simpl. unfold bind.
    rewrite (fetchMetrics_answers _ _ _ _ _ Hurl Hget).
    rewrite (sendToPushGateway_posts _ _ _ _ _ Hne Hpush).
    match goal with |- context [pushLoop env p ticks ?s1] =>
      destruct (IH s1) as (s' & Hrun & Hposts & Hsent);
      assert (Hs1 : sent s1 = sent s ++ [getRequestOf p; postRequestOf p body])
    end.
    { destruct (doPost net _); destruct s; simpl; rewrite <- app_assoc; reflexivity. }
    exists s'. split; [exact Hrun|].
    rewrite Hposts, Hsent, Hs1, posts_app, !length_app. simpl. lia.
Qed.

Lemma push_loop_survives_push_failures_witness :
  let refused := {| doGet := fun _ => DoResponse "up 1";
                    doPost := fun _ => Some "503" |} in
  let ticks := [refused; netUp; refused] in
  exists s',
    pushLoop plainEnv pushing ticks (startState []) = Ret tt s'
    /\ length (posts (sent s'))
       = (length (posts (sent (startState []))) + length ticks)%nat
    /\ length (sent s') = (length (sent (startState [])) + 2 * length ticks)%nat.
Proof.
  intros refused ticks.
  apply (push_loop_survives_push_failures plainEnv pushing ticks (startState [])
           ltac:(discriminate) eq_refl eq_refl).
  repeat constructor; eexists; reflexivity.
Defined.

(** A push gateway URL that http.NewRequest refuses ends the loop: the
    error of NewRequest is not looked at and the nil request is handed to
    the client, so the first tick on which the local endpoint answers panics
    after the GET, with no POST and nothing logged. *)
Theorem unparsable_gateway_url_ends_push_loop :
  forall (env : Env) (p : Prometheus) (net : Net) (ticks : list Net)
         (s : State) (body : string),
    MetricsURL p <> "" ->
    urlParses env (MetricsURL p) = true ->
    urlParses env (GetPushGatewayURL p) = false ->
    doGet net (getRequestOf p) = DoResponse body ->
    exists s',
      pushLoop env p (net :: ticks) s = Panicked nilDereference s'
      /\ sent s' = sent s ++ [getRequestOf p]
      /\ logged s' = logged s.
Proof.
  intros env p net ticks s body Hne Hurl Hpush Hget. simpl. unfold bind.
  rewrite (fetchMetrics_answers _ _ _ _ _ Hurl Hget).
  unfold sendToPushGateway, NewRequest.
  apply String.eqb_neq in Hne. rewrite Hne, Hpush.
  eexists. split; [reflexivity|]. destruct s; split; reflexivity.
Qed.

Lemma unparsable_gateway_url_ends_push_loop_witness :
  let env := {| hostname := "host-1"; rangeSeed := 0;
                validDesc := fun _ _ => true;
                urlParses := fun url => String.prefix "http://localhost" url;
                routeAccepted := fun _ _ => true |} in
  exists s',
    pushLoop env pushing [netUp; netUp] (startState []) = Panicked nilDereference s'
    /\ sent s' = sent (startState []) ++ [getRequestOf pushing]
    /\ logged s' = logged (startState []).
Proof.
  intros env.
  exact (unparsable_gateway_url_ends_push_loop env pushing netUp [netUp]
           (startState []) "up 1" ltac:(discriminate) eq_refl eq_refl eq_refl).
Defined.


(** ** More on Metric.Collector under concurrent callers *)

Module OnceFacts.
Import Concurrent.







(** The construction is under mutual exclusion: under every schedule, two
    callers that are both between the lock and the unlock of the Once are
    the same caller. *)
Theorem one_caller_in_the_critical_section :
  forall (m : Metric) (next : nat) (jobNames : list string) (schedule : list nat)
         (i j : nat) (ti tj : Thread),
    let st := run schedule (init m next jobNames) in
    threads st !! i = Some ti -> threads st !! j = Some tj ->
    inCritical (at_ ti) = true -> inCritical (at_ tj) = true ->
    i = j.
Proof.
  intros m next jobNames schedule i j ti tj st Hi Hj Hci Hcj.
  apply (ConcurrentFacts.holder_unique st i j ti tj); try assumption.
  apply ConcurrentFacts.run_Inv, ConcurrentFacts.init_Inv.
Qed.

Lemma one_caller_in_the_critical_section_witness :
  inCritical (at_ {| arg := "gin"; at_ := AtCheck |}) = true /\ 0%nat = 0%nat.
Proof.
  split; [reflexivity|].
  apply (one_caller_in_the_critical_section (SlowRequestTotal Second) 0
           ["gin"; "api"] [0; 1; 0]%nat 0%nat 0%nat
           {| arg := "gin"; at_ := AtCheck |} {| arg := "gin"; at_ := AtCheck |});
    vm_compute; reflexivity.
Defined.

(** Collector cannot deadlock: under every schedule, as long as some caller
    has not returned, some caller can take a step. *)
Theorem some_caller_can_always_move :
  forall (m : Metric) (next : nat) (jobNames : list string) (schedule : list nat),
    let st := run schedule (init m next jobNames) in
    ~ finished st ->
    exists i st', step i st = Some st'.
Proof.
  intros m next jobNames schedule st Hnot.
  apply ConcurrentFacts.progress; [|exact Hnot].
  apply ConcurrentFacts.run_Inv, ConcurrentFacts.init_Inv.
Qed.

Lemma some_caller_can_always_move_witness :
  exists i st',
    step i (run [0; 1; 0]%nat
              (init (SlowRequestTotal Second) 0 ["gin"; "api"])) = Some st'.
Proof.
  apply (some_caller_can_always_move (SlowRequestTotal Second) 0
           ["gin"; "api"] [0; 1; 0]%nat).
  intros Hfin.
  destruct (Hfin 1%nat {| arg := "api"; at_ := AtLock |}) as [c Hc];
    [vm_compute; reflexivity | discriminate Hc].
Defined.

End OnceFacts.
